(** * DeepGuard-AI: score normalisation and orchestration ([utils.py])

    A shallow embedding of [utils.py] and the properties of its score
    normalisation, its error boundaries and its temporary-file handling.

    Modelling conventions.
    - A Python [str] is a Rocq [string], one character per code point, for
      code points below 256 (Latin-1); [str.lower] and [str.strip] are the
      restrictions of Python's functions to that range.
    - A Python [float] is an exact rational ([Q]); equalities between scores
      are stated with [==] ([Qeq]) and hold up to floating rounding in the
      program.
    - Side effects (the temporary files, the [st.cache_resource] memo, calls to
      the classifiers and to the progress bar) are threaded through a state
      and exception monad [M] over a [world].  [st.session_state] is a map
      that [setup_session_state] takes and returns.
    - The external collaborators (PIL, librosa, soundfile, the transformers
      pipelines, the operating system) are the fields of a record
      [collaborators]; the theorems hold for all of them.  The exceptions
      they raise are instances of Python's [Exception]. *)

From Stdlib Require Import String Ascii ZArith QArith Lqa Lia List Bool.
From stdpp Require Import base gmap strings.

Local Open Scope string_scope.
Local Open Scope Z_scope.

(** ** Strings *)

Module Str.

Definition code (a : ascii) : N := N_of_ascii a.

(** [str.lower] on one code point below 256: A-Z and the Latin-1 capitals
    U+00C0..U+00DE (U+00D7, the multiplication sign, apart) move up by 32. *)
Definition lower_char (a : ascii) : ascii :=
  let n := code a in
  if ((65 <=? n) && (n <=? 90))%N then ascii_of_N (n + 32)
  else if ((192 <=? n) && (n <=? 222) && negb (n =? 215))%N then ascii_of_N (n + 32)
  else a.

Fixpoint lower (s : string) : string :=
  match s with
  | EmptyString => EmptyString
  | String a r => String (lower_char a) (lower r)
  end.

(** [str.isspace] on one code point below 256. *)
Definition is_space (a : ascii) : bool :=
  let n := code a in
  (((9 <=? n) && (n <=? 13)) || ((28 <=? n) && (n <=? 32))
   || (n =? 133) || (n =? 160))%N.

Fixpoint lstrip (s : string) : string :=
  match s with
  | EmptyString => EmptyString
  | String a r => if is_space a then lstrip r else s
  end.

Fixpoint rstrip (s : string) : string :=
  match s with
  | EmptyString => EmptyString
  | String a r =>
      match rstrip r with
      | EmptyString => if is_space a then EmptyString else String a EmptyString
      | r' => String a r'
      end
  end.

(** [s.strip()] *)
Definition strip (s : string) : string := rstrip (lstrip s).

(** [len(s)] *)
Definition len (s : string) : Z := Z.of_nat (String.length s).

(** [s[:n]] for [n >= 0] *)
Fixpoint take (n : nat) (s : string) : string :=
  match n, s with
  | O, _ => EmptyString
  | _, EmptyString => EmptyString
  | S k, String a r => String a (take k r)
  end.

(** [needle in hay] *)
Fixpoint contains (needle hay : string) : bool :=
  String.prefix needle hay
  || match hay with
     | EmptyString => false
     | String _ r => contains needle r
     end.

End Str.

(** ** Classifier output and results *)

(** One entry [{"label": ..., "score": ...}] of a pipeline's output. *)
Record classification := Classification { label : string; score : Q }.

(** The values stored in a [details] dictionary. *)
Inductive pyval :=
| PStr (s : string)
| PInt (n : Z)
| PFloat (q : Q).

(** The second component of a result: the raw output list of the pipeline
    (image, audio) or a dictionary (text, and every error). *)
Inductive details :=
| DList (out : list classification)
| DDict (entries : list (string * pyval)).

Definition result : Type := Q * details.

(** [d[key]] for a dictionary; a list has no keys. *)
Fixpoint assoc (key : string) (entries : list (string * pyval)) : option pyval :=
  match entries with
  | [] => None
  | (k, v) :: rest => if String.eqb k key then Some v else assoc key rest
  end.

Definition lookup_details (key : string) (d : details) : option pyval :=
  match d with
  | DList _ => None
  | DDict entries => assoc key entries
  end.

(** ["error" in details] *)
Definition has_error (d : details) : bool :=
  match lookup_details "error" d with Some _ => true | None => false end.

(** The three inference capabilities. *)
Inductive capability := Image | Audio | Text.

(** ** The polarity rules, as written in each analyzer *)

Module Polarity.
Import Str.

Local Open Scope Q_scope.

(** [image_score_ml], lines 97-101. *)
Definition image_score (top : classification) : Q :=
  let label := lower (label top) in
  let score0 := score top * 100 in
  if contains "real" label || contains "realism" label
  then (1 - score top) * 100
  else score0.

(** [process_audio_file], lines 51-55. *)
Definition audio_score (top : classification) : Q :=
  let label := lower (label top) in
  let score0 := score top * 100 in
  if contains "real" label || contains "bonafide" label
  then (1 - score top) * 100
  else score0.

(** [text_score_ml], lines 75-83. *)
Definition text_likelihood (top : classification) : Q :=
  let label := lower (label top) in
  let score0 := score top * 100 in
  if contains "fake" label || contains "generated" label then score0
  else if contains "real" label || contains "human" label then 100 - score0
  else score0.

Definition normalize (c : capability) : classification -> Q :=
  match c with
  | Image => image_score
  | Audio => audio_score
  | Text => text_likelihood
  end.

(** The substring sets each analyzer tests. *)
Definition authentic_set (c : capability) : list string :=
  match c with
  | Image => ["real"; "realism"]
  | Audio => ["real"; "bonafide"]
  | Text => ["real"; "human"]
  end.

Definition fake_set (c : capability) : list string :=
  match c with
  | Image => []
  | Audio => []
  | Text => ["fake"; "generated"]
  end.

Definition contains_any (set : list string) (lowered : string) : bool :=
  existsb (fun sub => contains sub lowered) set.

End Polarity.

#[global] Instance capability_eq_dec : EqDecision capability.
Proof. solve_decision. Defined.

#[global] Instance capability_countable : Countable capability.
Proof.
  refine (inj_countable'
            (fun c => match c with Image => 0%nat | Audio => 1%nat | Text => 2%nat end)
            (fun n => match n with 0%nat => Image | 1%nat => Audio | _ => Text end) _).
  by intros [].
Defined.

(** ** The world and the monad *)

Definition bytes : Type := list Byte.byte.

(** An instance of [Exception]; [str e] is [str(e)]. *)
Record exn := Exception { str : string }.

Inductive outcome (A : Type) :=
| Return (a : A)
| Raise (e : exn).
Arguments Return {A} a.
Arguments Raise {A} e.

(** What the analysis does to its collaborators, in the order it does it. *)
Inductive event :=
| Obtain (c : capability)      (* a getter decorated with st.cache_resource is called *)
| Initialize (c : capability)  (* its body runs: transformers.pipeline(...) *)
| Invoke (c : capability)      (* the handle is called on an input *)
| Progress (n : Z).            (* progress_bar.progress(n) *)

Definition is_inference (ev : event) : bool :=
  match ev with Progress _ => false | _ => true end.

(** A pipeline object; [h_id] is its identity. *)
Record handle := Handle { h_cap : capability; h_id : nat }.

Record world := World {
  files : gmap string bytes;       (* the files the program writes, by path *)
  cache : gmap capability handle;  (* the st.cache_resource memo *)
  next_id : nat;                   (* identity of the next object created *)
  trace : list event
}.

Definition M (A : Type) : Type := world -> outcome A * world.

Definition ret {A} (a : A) : M A := fun w => (Return a, w).

Definition raise {A} (e : exn) : M A := fun w => (Raise e, w).

Definition bind {A B} (m : M A) (k : A -> M B) : M B :=
  fun w =>
    match m w with
    | (Return a, w1) => k a w1
    | (Raise e, w1) => (Raise e, w1)
    end.

Definition lift {A} (o : outcome A) : M A := fun w => (o, w).

(** [try: body  except Exception as e: handler e] *)
Definition try_except {A} (body : M A) (handler : exn -> M A) : M A :=
  fun w =>
    match body w with
    | (Return a, w1) => (Return a, w1)
    | (Raise e, w1) => handler e w1
    end.

(** [try: body  finally: final]; an exception of [final] replaces the
    outcome of [body]. *)
Definition try_finally {A} (body : M A) (final : M unit) : M A :=
  fun w =>
    match body w with
    | (o, w1) =>
        match final w1 with
        | (Return _, w2) => (o, w2)
        | (Raise e, w2) => (Raise e, w2)
        end
    end.

Declare Scope py_scope.
Delimit Scope py_scope with py.
Notation "x <- m ;; k" := (bind m (fun x => k))
  (at level 100, m at next level, right associativity) : py_scope.
Notation "m ;;; k" := (bind m (fun _ => k))
  (at level 100, right associativity) : py_scope.
Local Open Scope py_scope.

Definition emit (ev : event) : M unit :=
  fun w => (Return tt,
            {| files := files w; cache := cache w; next_id := next_id w;
               trace := trace w ++ [ev] |}).

(** [out[0]] *)
Definition index0 {A} (out : list A) : M A :=
  match out with
  | x :: _ => ret x
  | [] => raise (Exception "list index out of range")
  end.

(** [for i in range(start, start + n): body i] *)
Fixpoint for_range (n : nat) (start : Z) (body : Z -> M unit) : M unit :=
  match n with
  | O => ret tt
  | S k => body start ;;; for_range k (start + 1) body
  end.

(** ** The collaborators *)

(** A decoded picture: [mode] is PIL's mode string. *)
Record pil_image := PilImage { mode : string; pixels : bytes }.

(** [progress_bar.progress(n)]: [None] when the call returns, [Some e] when it
    raises [e]. *)
Record progress_bar := ProgressBar { bar_progress : Z -> option exn }.

Record collaborators := Collaborators {
  (* torch.cuda.is_available() *)
  cuda_is_available : bool;
  (* transformers.pipeline(task, model=..., device=...): [None] when the
     pipeline is built, [Some e] when loading raises [e] *)
  pipeline : string -> string -> option Z -> option exn;
  (* the three pipelines, called on their input *)
  image_pipe : pil_image -> outcome (list classification);
  audio_pipe : bytes -> outcome (list classification);
  text_detector : string -> outcome (list classification);
  (* Image.open(io.BytesIO(b)) and im.convert(mode) *)
  image_open : bytes -> outcome pil_image;
  image_convert : pil_image -> string -> outcome pil_image;
  (* librosa.load on the contents of a file: the samples at rate sr *)
  librosa_load : bytes -> Z -> bool -> outcome (list Q);
  (* sf.write(buffer, y, sr, format=...): the bytes left in the buffer *)
  sf_write : list Q -> Z -> string -> outcome bytes;
  (* os.path.splitext *)
  os_path_splitext : string -> string * string;
  (* tempfile.NamedTemporaryFile: the name it picks for a suffix, and
     whether creating the file raises *)
  tmp_name : gmap string bytes -> string -> string;
  tmp_create : string -> option exn;
  (* tmp.write(b) followed by the close: [None] when all of [b] is on disk,
     [Some (e, part)] when [e] is raised with [part] on disk *)
  tmp_write : bytes -> option (exn * bytes)
}.

(** Model IDs *)
Definition IMAGE_MODEL_ID : string := "prithivMLmods/Deep-Fake-Detector-v2-Model".
Definition AUDIO_MODEL_ID : string := "Gustking/wav2vec2-large-xlsr-deepfake-audio-classification".

Definition set_files (f : gmap string bytes) (w : world) : world :=
  {| files := f; cache := cache w; next_id := next_id w; trace := trace w |}.

Section Program.

Variable E : collaborators.

(** *** Cached models *)

(** [@st.cache_resource]: the decorated body runs on the first call, its
    value is kept and handed out by every later call.  A body that raises
    leaves nothing in the memo. *)
Definition cache_resource (c : capability) (body : option exn) : M handle :=
  emit (Obtain c) ;;;
  fun w =>
    match cache w !! c with
    | Some h => (Return h, w)
    | None =>
        let w1 := snd (emit (Initialize c) w) in
        match body with
        | Some e => (Raise e, w1)
        | None =>
            let h := Handle c (next_id w1) in
            (Return h,
             {| files := files w1; cache := <[c := h]> (cache w1);
                next_id := S (next_id w1); trace := trace w1 |})
        end
    end.

Definition device : option Z := Some (if cuda_is_available E then 0 else -1).

Definition get_image_pipe : M handle :=
  cache_resource Image (pipeline E "image-classification" IMAGE_MODEL_ID device).

Definition get_audio_pipe : M handle :=
  cache_resource Audio (pipeline E "audio-classification" AUDIO_MODEL_ID device).

Definition get_text_detector : M handle :=
  cache_resource Text (pipeline E "text-classification" "roberta-large-openai-detector" None).

(** Calling a handle on an input. *)
Definition call {A} (h : handle) (run : A -> outcome (list classification)) (x : A)
  : M (list classification) :=
  emit (Invoke (h_cap h)) ;;; lift (run x).

(** *** Temporary files *)

(** [os.path.splitext(filename)[1]]; [filename] is [None] by default. *)
Definition splitext_ext (filename : option string) : M string :=
  match filename with
  | Some f => ret (snd (os_path_splitext E f))
  | None => raise (Exception "expected str, bytes or os.PathLike object, not NoneType")
  end.

(** [with tempfile.NamedTemporaryFile(delete=False, suffix=suffix) as tmp:
      tmp.write(data); tmp_path = tmp.name]
    The file exists from its creation on, and leaving the block closes it
    without deleting it. *)
Definition named_temporary_file (suffix : string) (data : bytes) : M string :=
  fun w =>
    let path := tmp_name E (files w) suffix in
    match files w !! path, tmp_create E suffix with
    | Some _, _ => (Raise (Exception "No usable temporary file name found"), w)
    | None, Some e => (Raise e, w)
    | None, None =>
        match tmp_write E data with
        | Some (e, part) => (Raise e, set_files (<[path := part]> (files w)) w)
        | None => (Return path, set_files (<[path := data]> (files w)) w)
        end
    end.

(** [os.path.exists(path)] *)
Definition os_path_exists (path : string) : M bool :=
  fun w => (Return (bool_decide (is_Some (files w !! path))), w).

(** [os.unlink(path)] *)
Definition os_unlink (path : string) : M unit :=
  fun w =>
    match files w !! path with
    | Some _ => (Return tt, set_files (delete path (files w)) w)
    | None => (Raise (Exception "No such file or directory"), w)
    end.

(** Reading the file at [path], as the decoder does. *)
Definition read_file (path : string) : M bytes :=
  fun w =>
    match files w !! path with
    | Some b => (Return b, w)
    | None => (Raise (Exception "No such file or directory"), w)
    end.

Import Str Polarity.

(** *** Audio analysis *)

Definition audio_error (e : exn) : result :=
  (0%Q, DDict [("error", PStr ("Error processing audio: " ++ str e))]).

Definition process_audio_file (audio_bytes : bytes) (filename : option string) : M result :=
  try_except
    (suffix <- splitext_ext filename ;;
     tmp_path <- named_temporary_file suffix audio_bytes ;;
     try_finally
       (content <- read_file tmp_path ;;
        y <- lift (librosa_load E content 16000 true) ;;
        let sr := 16000 in
        wav <- lift (sf_write E y sr "WAV") ;;
        pipe <- get_audio_pipe ;;
        out <- call pipe (audio_pipe E) wav ;;
        top <- index0 out ;;
        ret (audio_score top, DList out))
       (present <- os_path_exists tmp_path ;;
        if present then os_unlink tmp_path else ret tt))
    (fun e => ret (audio_error e)).

(** *** Text analysis *)

Definition text_error (e : exn) : result :=
  (0%Q, DDict [("error", PStr ("Error processing text: " ++ str e))]).

Definition text_too_short (text : string) : result :=
  (0%Q, DDict [("error", PStr "Text is too short for accurate analysis");
               ("text_length", PInt (len text))]).

Definition text_score_ml (text : string) : M result :=
  try_except
    (if len (strip text) <? 50 then ret (text_too_short text)
     else
       detector <- get_text_detector ;;
       out <- call detector (text_detector E) (take 1000 text) ;;   (* limit for performance *)
       top <- index0 out ;;
       let label := lower (label top) in
       let score0 := (score top * 100)%Q in
       ret (text_likelihood top,
            DDict [("detector_label", PStr label); ("detector_confidence", PFloat score0)]))
    (fun e => ret (text_error e)).

(** *** Image analysis *)

Definition image_error (e : exn) : result :=
  (0%Q, DDict [("error", PStr ("Error processing image: " ++ str e))]).

Definition image_score_ml (image_bytes : bytes) : M result :=
  try_except
    (pipe <- get_image_pipe ;;
     im <- lift (image_open E image_bytes) ;;
     pil <- lift (image_convert E im "RGB") ;;
     out <- call pipe (image_pipe E) pil ;;
     top <- index0 out ;;
     ret (image_score top, DList out))
    (fun e => ret (image_error e)).

(** *** Wrappers *)

Definition audio_score_ml (audio_bytes : bytes) (filename : option string) : M result :=
  process_audio_file audio_bytes filename.

(** [time.sleep(seconds)]: time is not part of the world. *)
Definition time_sleep (seconds : Q) : M unit := ret tt.

(** [progress_bar.progress(n)] *)
Definition progress (bar : progress_bar) (n : Z) : M unit :=
  emit (Progress n) ;;;
  match bar_progress bar n with
  | Some e => raise e
  | None => ret tt
  end.

(** The loop both public functions start with. *)
Definition progress_loop (bar : option progress_bar) : M unit :=
  for_range 100 0
    (fun percent_complete =>
       time_sleep (5 # 1000) ;;;
       match bar with
       | Some b => progress b (percent_complete + 1)
       | None => ret tt
       end).

Definition unsupported_modality : result :=
  (0%Q, DDict [("error", PStr "Unsupported modality")]).

Definition analyze_content (modality : string) (file_bytes : bytes)
    (bar : option progress_bar) (filename : option string) : M result :=
  progress_loop bar ;;;
  if String.eqb modality "Image" || String.eqb modality "Video"
  then image_score_ml file_bytes
  else if String.eqb modality "Audio"
  then audio_score_ml file_bytes filename
  else ret unsupported_modality.

Definition analyze_text (text : string) (bar : option progress_bar) : M result :=
  progress_loop bar ;;;
  text_score_ml text.

End Program.

(** ** Concrete inputs used by the examples below *)

Import Str Polarity.

Definition mixed_text_top : classification :=
  {| label := "Fake-or-Human"; score := 3 # 4 |}.

Definition mixed_text_top' : classification :=
  {| label := "Not-Generated-REAL"; score := 9 # 10 |}.

(** A world with no file, no cached model and no event. *)
Definition empty_world : world :=
  {| files := ∅; cache := ∅; next_id := 0; trace := [] |}.

(** Collaborators that all succeed. *)
Definition demo : collaborators := {|
  cuda_is_available := false;
  pipeline := fun _ _ _ => None;
  image_pipe := fun _ =>
    Return [Classification "Realism" (9 # 10); Classification "Deepfake" (1 # 10)];
  audio_pipe := fun _ =>
    Return [Classification "spoof" (7 # 10); Classification "bonafide" (3 # 10)];
  text_detector := fun _ =>
    Return [Classification "Fake" (82 # 100); Classification "Real" (18 # 100)];
  image_open := fun b => Return (PilImage "P" b);
  image_convert := fun im m => Return (PilImage m (pixels im));
  librosa_load := fun _ _ _ => Return [0%Q; (1 # 2)%Q];
  sf_write := fun _ _ _ => Return [Byte.x52; Byte.x49; Byte.x46; Byte.x46];
  os_path_splitext := fun _ => ("clip", ".wav");
  tmp_name := fun _ suffix => "/tmp/tmpk3v9x2" ++ suffix;
  tmp_create := fun _ => None;
  tmp_write := fun _ => None
|}.

(** The same collaborators on a machine whose disk is full: the temporary
    file is created, and writing to it raises [OSError]. *)
Definition full_disk : collaborators := {|
  cuda_is_available := cuda_is_available demo;
  pipeline := pipeline demo;
  image_pipe := image_pipe demo;
  audio_pipe := audio_pipe demo;
  text_detector := text_detector demo;
  image_open := image_open demo;
  image_convert := image_convert demo;
  librosa_load := librosa_load demo;
  sf_write := sf_write demo;
  os_path_splitext := os_path_splitext demo;
  tmp_name := tmp_name demo;
  tmp_create := tmp_create demo;
  tmp_write := fun _ => Some (Exception "[Errno 28] No space left on device", [])
|}.

Definition clip_bytes : bytes := [Byte.x49; Byte.x44; Byte.x33; Byte.x04].

Definition sixty_chars : string :=
  "The quick brown fox jumps over the lazy dog again and again.".


(** What [demo] makes of a picture, and the world the call leaves. *)
Definition demo_image_result : result :=
  (image_score (Classification "Realism" (9 # 10)),
   DList [Classification "Realism" (9 # 10); Classification "Deepfake" (1 # 10)]).

Definition demo_image_world : world :=
  snd (analyze_content demo "Image" clip_bytes None None empty_world).

(** A progress bar whose [progress] always returns. *)
Definition quiet_bar : progress_bar := {| bar_progress := fun _ => None |}.

(** ** Outcomes of a computation *)

(** [wp m w post]: [post] holds of the outcome of [m] run in [w] and of the
    world it leaves. *)
Definition wp {A} (m : M A) (w : world) (post : outcome A -> world -> Prop) : Prop :=
  post (fst (m w)) (snd (m w)).
Arguments wp : simpl never.

(** [post] lifted over a continuation: what [bind] asks of its first part. *)
Definition then_wp {A B} (k : A -> M B) (post : outcome B -> world -> Prop)
  : outcome A -> world -> Prop :=
  fun o w =>
    match o with
    | Return a => wp (k a) w post
    | Raise e => post (Raise e) w
    end.

(** [P] holds of the value returned, if one is. *)
Definition returned {A} (P : A -> Prop) : outcome A -> world -> Prop :=
  fun o _ => match o with Return a => P a | Raise _ => True end.

(** The computation returns, whatever the world. *)
Definition returns {A} (m : M A) : Prop :=
  forall w, exists a w', m w = (Return a, w').

(** The top entry of an output, when there is one, has a confidence in
    [0, 1]. *)
Definition top_confidence_ok (out : list classification) : Prop :=
  match out with
  | top :: _ => (0 <= score top <= 1)%Q
  | [] => True
  end.

(** Every pipeline reports confidences in [0, 1]. *)
Definition calibrated (E : collaborators) : Prop :=
  (forall x out, image_pipe E x = Return out -> top_confidence_ok out)
  /\ (forall x out, audio_pipe E x = Return out -> top_confidence_ok out)
  /\ (forall x out, text_detector E x = Return out -> top_confidence_ok out).

(** The invariant of an [AnalysisResult]. *)
Definition result_ok (r : result) : Prop :=
  (has_error (snd r) = false -> 0 <= fst r <= 100)%Q
  /\ (has_error (snd r) = true -> fst r == 0)%Q.


(** The path [demo] and [full_disk] give the temporary copy of "clip.wav". *)
Definition tmp_clip_path : string := "/tmp/tmpk3v9x2.wav".

Definition disk_full_error : exn := Exception "[Errno 28] No space left on device".

(** The world after more events. *)
Definition add_events (evs : list event) (w : world) : world :=
  {| files := files w; cache := cache w; next_id := next_id w;
     trace := trace w ++ evs |}.

(** The progress bar, if there is one, never raises. *)
Definition bar_never_raises (bar : option progress_bar) : Prop :=
  forall b n, bar = Some b -> bar_progress b n = None.

(** ** Session state *)

(** What the interface keeps in [st.session_state]. *)
Inductive session_value :=
| SNone
| SBool (b : bool)
| SScore (q : Q)
| SDetails (d : details).

(** [if key not in st.session_state: st.session_state[key] = v] *)
Definition set_default (key : string) (v : session_value)
    (state : gmap string session_value) : gmap string session_value :=
  match state !! key with
  | Some _ => state
  | None => <[key := v]> state
  end.

(** [setup_session_state], lines 113-119, on the session state it updates. *)
Definition setup_session_state (state : gmap string session_value)
  : gmap string session_value :=
  let state := set_default "analysis_done" (SBool false) state in
  let state := set_default "analysis_result" SNone state in
  set_default "analysis_details" SNone state.

(** ** Relations between the world before and after a computation *)

(** [m] takes every world to one related to it by [R]. *)
Definition steps (R : world -> world -> Prop) {A} (m : M A) : Prop :=
  forall w, R w (snd (m w)).

(** A handle [h] cached for [c] stays cached, and the getter's body for [c]
    does not run again. *)
Definition handle_kept (c : capability) (h : handle) (w w' : world) : Prop :=
  cache w !! c = Some h ->
  cache w' !! c = Some h
  /\ exists evs, trace w' = (trace w ++ evs)%list /\ Initialize c ∉ evs.

(** The memo is as it was for every capability but [c0]. *)
Definition only_touches (c0 : capability) (w w' : world) : Prop :=
  forall c, c <> c0 -> cache w' !! c = cache w !! c.

(** *** What a returned result can be *)







(** Every character of [s] is white space. *)
Fixpoint all_space (s : string) : bool :=
  match s with
  | EmptyString => true
  | String a r => Str.is_space a && all_space r
  end.

(** The events of [progress_bar.progress(first)], ..., [progress(first + n - 1)]. *)
Fixpoint progress_events (n : nat) (first : Z) : list event :=
  match n with
  | O => []
  | S k => Progress first :: progress_events k (first + 1)
  end.

(** A progress bar that raises at its third call. *)
Definition broken_bar : progress_bar :=
  {| bar_progress := fun n => if n =? 3 then Some (Exception "widget is gone") else None |}.

(** Collaborators whose decoders reject every input. *)
Definition undecodable : collaborators := {|
  cuda_is_available := cuda_is_available demo;
  pipeline := pipeline demo;
  image_pipe := image_pipe demo;
  audio_pipe := audio_pipe demo;
  text_detector := text_detector demo;
  image_open := fun _ => Raise (Exception "cannot identify image file");
  image_convert := image_convert demo;
  librosa_load := fun _ _ _ => Raise (Exception "Format not recognised");
  sf_write := sf_write demo;
  os_path_splitext := os_path_splitext demo;
  tmp_name := tmp_name demo;
  tmp_create := tmp_create demo;
  tmp_write := tmp_write demo
|}.

(** Collaborators whose pipelines return an empty list. *)
Definition silent : collaborators := {|
  cuda_is_available := cuda_is_available demo;
  pipeline := pipeline demo;
  image_pipe := fun _ => Return [];
  audio_pipe := fun _ => Return [];
  text_detector := fun _ => Return [];
  image_open := image_open demo;
  image_convert := image_convert demo;
  librosa_load := librosa_load demo;
  sf_write := sf_write demo;
  os_path_splitext := os_path_splitext demo;
  tmp_name := tmp_name demo;
  tmp_create := tmp_create demo;
  tmp_write := tmp_write demo
|}.

(** A world in which the image model is already cached. *)
Definition warm_world : world :=
  {| files := ∅; cache := {[ Image := Handle Image 0 ]}; next_id := 1; trace := [] |}.

(** A session in which an analysis is finished. *)
Definition finished_session : gmap string session_value :=
  {[ "analysis_done" := SBool true; "analysis_result" := SScore (82 # 1) ]}.

(** [n] copies of the character [a]. *)
Fixpoint replicate_char (n : nat) (a : ascii) : string :=
  match n with
  | O => EmptyString
  | S k => String a (replicate_char k a)
  end.

(** Two texts of 1060 characters that differ after the first 1000. *)
Definition long_text_one : string := replicate_char 1000 "a" ++ sixty_chars.
Definition long_text_two : string :=
  replicate_char 1000 "a" ++ replicate_char 60 "z".

(** A thousand spaces before sixty characters of text. *)
Definition late_text : string := replicate_char 1000 " " ++ sixty_chars.



(** A result without an error entry comes with the model of [c] cached. *)
Definition caches_on_success (c : capability) : outcome result -> world -> Prop :=
  fun o w =>
    match o with
    | Return r => has_error (snd r) = false -> is_Some (cache w !! c)
    | Raise _ => True
    end.

(** ** Properties of the polarity rules *)

Section PolarityFacts.

Local Open Scope Q_scope.

Variable top : classification.

Lemma contains_any_pair a b s :
  contains_any [a; b] s = contains a s || contains b s.
Proof. unfold contains_any; simpl. by rewrite orb_false_r. Qed.

Lemma image_score_spec :
  image_score top ==
    if contains_any (authentic_set Image) (lower (label top)) then 100 * (1 - score top) else 100 * score top.
Proof.
  unfold image_score, authentic_set. rewrite contains_any_pair.
  destruct (_ || _); ring.
Qed.

Lemma audio_score_spec :
  audio_score top ==
    if contains_any (authentic_set Audio) (lower (label top)) then 100 * (1 - score top) else 100 * score top.
Proof.
  unfold audio_score, authentic_set. rewrite contains_any_pair.
  destruct (_ || _); ring.
Qed.

Lemma text_likelihood_spec :
  text_likelihood top ==
    if contains_any (fake_set Text) (lower (label top)) then 100 * score top
    else if contains_any (authentic_set Text) (lower (label top)) then 100 * (1 - score top)
    else 100 * score top.
Proof.
  unfold text_likelihood, authentic_set, fake_set. rewrite !contains_any_pair.
  destruct (_ || _); [ring|]. destruct (_ || _); ring.
Qed.

End PolarityFacts.

(** C1 (as stated, refuted): for the text rule a label whose lower-cased form
    contains the authentic-indicating substring "human" does not always give
    [100 * (1 - c)]: "Fake-or-Human" with confidence 3/4 gives 75, not 25. *)
Lemma authentic_label_not_always_inverted :
  contains_any (authentic_set Text) (lower (label mixed_text_top)) = true
  /\ (0 <= score mixed_text_top <= 1)%Q
  /\ ~ (normalize Text mixed_text_top == 100 * (1 - score mixed_text_top))%Q.
Proof.
  split; [reflexivity|]. split; [split; discriminate|].
  vm_compute. discriminate.
Qed.

(** C1 (amended): for each modality, if the lower-cased label contains an
    authentic-indicating substring of that modality and none of the
    substrings the analyzer tests before it (for text: "fake", "generated";
    none for image and audio), the normalized score is [100 * (1 - c)]; if it
    contains no authentic-indicating substring, the score is [100 * c]. *)
Theorem normalize_by_polarity (m : capability) (top : classification) :
  (contains_any (authentic_set m) (lower (label top)) = true ->
   contains_any (fake_set m) (lower (label top)) = false ->
   normalize m top == 100 * (1 - score top))%Q
  /\ (contains_any (authentic_set m) (lower (label top)) = false ->
      normalize m top == 100 * score top)%Q.
Proof.
  split.
  - intros Ha Hf. destruct m; simpl.
    + rewrite image_score_spec. by rewrite Ha.
    + rewrite audio_score_spec. by rewrite Ha.
    + rewrite text_likelihood_spec. by rewrite Hf, Ha.
  - intros Ha. destruct m; simpl.
    + rewrite image_score_spec. by rewrite Ha.
    + rewrite audio_score_spec. by rewrite Ha.
    + rewrite text_likelihood_spec. rewrite Ha.
      destruct (contains_any (fake_set Text) _); reflexivity.
Qed.

Lemma normalize_by_polarity_witness :
  (normalize Image {| label := "Realism"; score := 9 # 10 |} == 100 * (1 - (9 # 10)))%Q
  /\ (normalize Text {| label := "Fake"; score := 82 # 100 |} == 100 * (82 # 100))%Q.
Proof.
  split.
  - apply (normalize_by_polarity Image {| label := "Realism"; score := 9 # 10 |});
      reflexivity.
  - apply (normalize_by_polarity Text {| label := "Fake"; score := 82 # 100 |});
      reflexivity.
Defined.

(** C2 (as stated, refuted): the text rule does not give priority to the
    authentic-indicating set: "Not-Generated-REAL" contains "real" and
    "generated", and with confidence 9/10 its score is 90, not 10. *)
Lemma text_tests_fake_before_authentic :
  contains "real" (lower (label mixed_text_top')) = true
  /\ contains "generated" (lower (label mixed_text_top')) = true
  /\ (text_likelihood mixed_text_top' == 90)%Q
  /\ ~ (text_likelihood mixed_text_top' == 100 * (1 - score mixed_text_top'))%Q.
Proof.
  split; [reflexivity|]. split; [reflexivity|]. split; [reflexivity|].
  vm_compute. discriminate.
Qed.

(** C2 (amended): for image and audio, whenever the lower-cased label contains
    an authentic-indicating substring the result is the inverted confidence
    [100 * (1 - c)], whatever else the label contains; for text the
    fake-indicating set is tested first: a label containing "fake" or
    "generated" gives [100 * c] even when it also contains "real" or "human",
    and the inversion applies when the label contains an authentic-indicating
    substring and no fake-indicating one. *)
Theorem polarity_test_order (top : classification) :
  (contains_any (authentic_set Image) (lower (label top)) = true ->
   image_score top == 100 * (1 - score top))%Q
  /\ (contains_any (authentic_set Audio) (lower (label top)) = true ->
      audio_score top == 100 * (1 - score top))%Q
  /\ (contains_any (fake_set Text) (lower (label top)) = true ->
      text_likelihood top == 100 * score top)%Q
  /\ (contains_any (fake_set Text) (lower (label top)) = false ->
      contains_any (authentic_set Text) (lower (label top)) = true ->
      text_likelihood top == 100 * (1 - score top))%Q.
Proof.
  split; [|split; [|split]].
  - intros H. rewrite image_score_spec. by rewrite H.
  - intros H. rewrite audio_score_spec. by rewrite H.
  - intros H. rewrite text_likelihood_spec. by rewrite H.
  - intros Hf Ha. rewrite text_likelihood_spec. by rewrite Hf, Ha.
Qed.

Lemma polarity_test_order_witness :
  (image_score {| label := "fake-vs-real"; score := 1 # 4 |} == 100 * (1 - (1 # 4)))%Q
  /\ (audio_score {| label := "Bonafide"; score := 1 # 4 |} == 100 * (1 - (1 # 4)))%Q
  /\ (text_likelihood mixed_text_top' == 100 * score mixed_text_top')%Q
  /\ (text_likelihood {| label := "Human"; score := 1 # 4 |} == 100 * (1 - (1 # 4)))%Q.
Proof.
  split; [|split; [|split]].
  - apply (polarity_test_order {| label := "fake-vs-real"; score := 1 # 4 |}); reflexivity.
  - apply (polarity_test_order {| label := "Bonafide"; score := 1 # 4 |}); reflexivity.
  - apply (polarity_test_order mixed_text_top'); reflexivity.
  - apply (polarity_test_order {| label := "Human"; score := 1 # 4 |}); reflexivity.
Defined.

(** ** Rules for [wp] *)

Section WpRules.

Context {A B : Type}.

Lemma wp_any (m : M A) w (post : outcome A -> world -> Prop) :
  (forall o w1, post o w1) -> wp m w post.
Proof. intros H. apply H. Qed.

Lemma wp_ret (a : A) w post : post (Return a) w -> wp (ret a) w post.
Proof. exact id. Qed.

Lemma wp_raise e w (post : outcome A -> world -> Prop) :
  post (Raise e) w -> wp (raise e) w post.
Proof. exact id. Qed.

Lemma wp_lift (o : outcome A) w post : post o w -> wp (lift o) w post.
Proof. exact id. Qed.

Lemma wp_bind (m : M A) (k : A -> M B) w post :
  wp m w (then_wp k post) -> wp (bind m k) w post.
Proof.
  unfold wp, then_wp, bind. destruct (m w) as [[a|e] w1]; simpl; auto.
Qed.

Lemma wp_try_except (body : M A) (handler : exn -> M A) w post :
  wp body w (fun o w1 =>
               match o with
               | Return a => post (Return a) w1
               | Raise e => wp (handler e) w1 post
               end) ->
  wp (try_except body handler) w post.
Proof.
  unfold wp, try_except. destruct (body w) as [[a|e] w1]; simpl; auto.
Qed.

Lemma wp_try_finally (body : M A) (final : M unit) w post :
  wp body w (fun o w1 =>
               wp final w1 (fun o2 w2 =>
                              match o2 with
                              | Return _ => post o w2
                              | Raise e => post (Raise e) w2
                              end)) ->
  wp (try_finally body final) w post.
Proof.
  unfold wp, try_finally. destruct (body w) as [o w1]; simpl.
  destruct (final w1) as [[u|e] w2]; simpl; auto.
Qed.

Lemma wp_elim (m : M A) w post o w' :
  wp m w post -> m w = (o, w') -> post o w'.
Proof. unfold wp. intros H Hm. by rewrite Hm in H. Qed.

End WpRules.

(** A [try ... except Exception] whose handler returns is a hard error
    boundary: it returns, whatever its body does. *)
Lemma try_except_returns {A} (body : M A) (handler : exn -> M A) :
  (forall e, returns (handler e)) -> returns (try_except body handler).
Proof.
  intros Hh w. unfold try_except.
  destruct (body w) as [[a|e] w1]; [by exists a, w1 | apply Hh].
Qed.

Lemma ret_returns {A} (a : A) : returns (ret a).
Proof. intros w. by exists a, w. Qed.

(** ** The progress loop *)

(** Without a progress bar the loop leaves the world as it is. *)
Lemma for_range_idle n start w :
  for_range n start (fun _ => time_sleep (5 # 1000) ;;; ret tt) w = (Return tt, w).
Proof.
  revert start. induction n as [|n IH]; intros start; [done|].
  simpl. unfold bind at 1. simpl. apply IH.
Qed.

Lemma progress_loop_idle w : progress_loop None w = (Return tt, w).
Proof. apply for_range_idle. Qed.

Lemma analyze_content_no_bar E modality file_bytes filename w :
  analyze_content E modality file_bytes None filename w =
    (if String.eqb modality "Image" || String.eqb modality "Video"
     then image_score_ml E file_bytes
     else if String.eqb modality "Audio"
          then audio_score_ml E file_bytes filename
          else ret unsupported_modality) w.
Proof. unfold analyze_content, bind. by rewrite progress_loop_idle. Qed.

Lemma analyze_text_no_bar E text w :
  analyze_text E text None w = text_score_ml E text w.
Proof. unfold analyze_text, bind. by rewrite progress_loop_idle. Qed.

(** With a progress bar the loop calls [progress] with 1, 2, ..., 100. *)
Example progress_loop_reports :
  progress_loop (Some quiet_bar) empty_world
  = (Return tt,
     {| files := ∅; cache := ∅; next_id := 0;
        trace := map (fun n => Progress (Z.of_nat n)) (seq 1 100) |}).
Proof. vm_compute. reflexivity. Qed.

(** The two examples of the specification: "Realism" at 0.9 on a picture
    scores 10, "Fake" at 0.82 on a text of 60 characters scores 82. *)
Example realism_scores_10 :
  (fst demo_image_result == 10)%Q
  /\ fst (analyze_content demo "Image" clip_bytes None None empty_world)
     = Return demo_image_result.
Proof. split; vm_compute; reflexivity. Qed.

Example fake_text_scores_82 :
  len sixty_chars = 60
  /\ exists r, fst (analyze_text demo sixty_chars None empty_world) = Return r
             /\ (fst r == 82)%Q.
Proof. split; [reflexivity|]. eexists. split; vm_compute; reflexivity. Qed.

Lemma add_events_nil w : add_events [] w = w.
Proof. destruct w; unfold add_events; simpl. by rewrite app_nil_r. Qed.

Lemma add_events_app evs1 evs2 w :
  add_events evs2 (add_events evs1 w) = add_events (evs1 ++ evs2)%list w.
Proof. unfold add_events; simpl. by rewrite app_assoc. Qed.

(** A loop whose body returns and adds only [Progress] events does the
    same. *)
Lemma for_range_progress (body : Z -> M unit) n start w :
  (forall i w1, exists evs,
      body i w1 = (Return tt, add_events evs w1)
      /\ forallb (fun ev => negb (is_inference ev)) evs = true) ->
  exists evs,
    for_range n start body w = (Return tt, add_events evs w)
    /\ forallb (fun ev => negb (is_inference ev)) evs = true.
Proof.
  intros Hbody. revert start w. induction n as [|n IH]; intros start w.
  - exists []. by rewrite add_events_nil.
  - destruct (Hbody start w) as (evs1 & Hone & Hevs1).
    destruct (IH (start + 1) (add_events evs1 w)) as (evs2 & Hrest & Hevs2).
    exists (evs1 ++ evs2)%list. simpl. unfold bind. rewrite Hone, Hrest, add_events_app.
    split; [done|]. rewrite forallb_app. by rewrite Hevs1, Hevs2.
Qed.

(** With a progress bar that never raises, the progress loop returns and
    adds only [Progress] events. *)
Lemma progress_loop_with_bar bar w :
  bar_never_raises bar ->
  exists evs,
    progress_loop bar w = (Return tt, add_events evs w)
    /\ forallb (fun ev => negb (is_inference ev)) evs = true.
Proof.
  intros Hbar. apply for_range_progress. intros i w1.
  destruct bar as [b|].
  - exists [Progress (i + 1)]. split; [|done].
    unfold bind, time_sleep, ret, progress, bind, emit; simpl.
    by rewrite (Hbar b (i + 1) eq_refl).
  - exists []. by rewrite add_events_nil.
Qed.

(** So both public functions return also with such a progress bar. *)
Lemma analysis_returns_with_bar E bar w :
  bar_never_raises bar ->
  (forall modality file_bytes filename,
      exists r w', analyze_content E modality file_bytes bar filename w = (Return r, w'))
  /\ (forall text, exists r w', analyze_text E text bar w = (Return r, w')).
Proof.
  intros Hbar. destruct (progress_loop_with_bar bar w Hbar) as (evs & Hloop & _).
  split.
  - intros modality file_bytes filename. unfold analyze_content, bind. rewrite Hloop.
    destruct (_ || _); [apply try_except_returns; intros e; apply ret_returns|].
    destruct (String.eqb _ _); [|apply ret_returns].
    apply try_except_returns; intros e; apply ret_returns.
  - intros text. unfold analyze_text, bind. rewrite Hloop.
    apply try_except_returns; intros e; apply ret_returns.
Qed.

(** ** Totality *)

Lemma image_score_ml_returns E image_bytes : returns (image_score_ml E image_bytes).
Proof. apply try_except_returns. intros e. apply ret_returns. Qed.


Lemma text_score_ml_returns E text : returns (text_score_ml E text).
Proof. apply try_except_returns. intros e. apply ret_returns. Qed.

(** What the boundary makes of a failure: the handler's result. *)
Lemma try_except_encodes_failure {A} (body : M A) (err : exn -> A) w e w1 :
  body w = (Raise e, w1) ->
  try_except body (fun e => ret (err e)) w = (Return (err e), w1).
Proof. intros H. unfold try_except. by rewrite H. Qed.

(** ** The result invariant *)

Lemma error_result_ok (msg : string) (more : list (string * pyval)) :
  result_ok (0%Q, DDict (("error", PStr msg) :: more)).
Proof. split; simpl; [discriminate | reflexivity]. Qed.

Lemma image_score_range top :
  (0 <= score top <= 1 -> 0 <= image_score top <= 100)%Q.
Proof. intros H. unfold image_score. destruct (_ || _); lra. Qed.

Lemma audio_score_range top :
  (0 <= score top <= 1 -> 0 <= audio_score top <= 100)%Q.
Proof. intros H. unfold audio_score. destruct (_ || _); lra. Qed.

Lemma text_likelihood_range top :
  (0 <= score top <= 1 -> 0 <= text_likelihood top <= 100)%Q.
Proof.
  intros H. unfold text_likelihood.
  destruct (_ || _); [lra|]. destruct (_ || _); lra.
Qed.

Ltac wp_next :=
  apply wp_bind; apply wp_any; intros [?|?] ?; simpl;
  [| try (apply wp_ret; apply error_result_ok)].

Ltac wp_lift_case H :=
  apply wp_lift;
  match goal with |- then_wp _ _ ?o _ => destruct o eqn:H end; simpl;
  [| try (apply wp_ret; apply error_result_ok)].

Ltac wp_index0 :=
  apply wp_bind;
  match goal with |- wp (index0 ?out) _ _ => destruct out as [|? ?] end;
  [apply wp_raise | apply wp_ret]; simpl;
  [try (apply wp_ret; apply error_result_ok) |].

Lemma image_score_ml_ok E image_bytes w :
  calibrated E -> wp (image_score_ml E image_bytes) w (returned result_ok).
Proof.
  intros (Hcal & _ & _). apply wp_try_except.
  wp_next. apply wp_bind. wp_lift_case Him. apply wp_bind. wp_lift_case Hpil.
  unfold call. apply wp_bind. wp_next. wp_lift_case Hout.
  wp_index0. apply wp_ret.
  apply Hcal in Hout. split; simpl; [intros _ | discriminate].
  by apply image_score_range.
Qed.

Lemma text_score_ml_ok E text w :
  calibrated E -> wp (text_score_ml E text) w (returned result_ok).
Proof.
  intros (_ & _ & Hcal). apply wp_try_except.
  destruct (len (strip text) <? 50); [apply wp_ret, error_result_ok|].
  wp_next. unfold call. apply wp_bind. wp_next. wp_lift_case Hout.
  wp_index0. apply wp_ret.
  apply Hcal in Hout. split; simpl; [intros _ | discriminate].
  by apply text_likelihood_range.
Qed.

Lemma process_audio_file_ok E audio_bytes filename w :
  calibrated E -> wp (process_audio_file E audio_bytes filename) w (returned result_ok).
Proof.
  intros (_ & Hcal & _). apply wp_try_except.
  wp_next. wp_next. apply wp_try_finally.
  assert (Hfinal : forall (o : outcome result) w1 (final : M unit),
             returned result_ok o w1 ->
             wp final w1
               (fun o2 w2 =>
                  match o2 with
                  | Return _ =>
                      match o with
                      | Return r => result_ok r
                      | Raise e => wp (ret (audio_error e)) w2 (returned result_ok)
                      end
                  | Raise e => wp (ret (audio_error e)) w2 (returned result_ok)
                  end)).
  { intros o w' final Ho. apply wp_any. intros [u|e] w2.
    - destruct o; [exact Ho | apply wp_ret, error_result_ok].
    - apply wp_ret, error_result_ok. }
  apply wp_bind, wp_any. intros [content|e] w2; simpl; [|by apply (Hfinal (Raise e))].
  apply wp_bind, wp_lift. destruct (librosa_load _ _ _ _) as [y|e]; simpl;
    [|by apply (Hfinal (Raise e))].
  apply wp_bind, wp_lift. destruct (sf_write _ _ _ _) as [wav|e]; simpl;
    [|by apply (Hfinal (Raise e))].
  apply wp_bind, wp_any. intros [pipe|e] w3; simpl; [|by apply (Hfinal (Raise e))].
  unfold call. apply wp_bind, wp_bind, wp_any. intros [u|e] w4; simpl;
    [|by apply (Hfinal (Raise e))].
  apply wp_lift. destruct (audio_pipe E wav) as [out|e] eqn:Hout; simpl;
    [|by apply (Hfinal (Raise e))].
  apply wp_bind. destruct out as [|top rest]; [by apply wp_raise, (Hfinal (Raise (Exception "list index out of range")))|].
  apply wp_ret; simpl. apply wp_ret, (Hfinal (Return (audio_score top, DList (top :: rest)))); simpl.
  apply Hcal in Hout. split; simpl; [intros _ | discriminate].
  by apply audio_score_range.
Qed.

(** C3: every result returned by [analyze_content] or [analyze_text], with or
    without a progress bar, satisfies: if [details] carries no error entry
    then [0 <= score <= 100], provided the pipelines report confidences in
    [0, 1]; and if [details] carries an error entry then [score == 0]. *)
Theorem returned_result_invariant (E : collaborators) (bar : option progress_bar)
    (w w' : world) (r : result) :
  calibrated E ->
  (exists modality file_bytes filename,
      analyze_content E modality file_bytes bar filename w = (Return r, w'))
  \/ (exists text, analyze_text E text bar w = (Return r, w')) ->
  (has_error (snd r) = false -> 0 <= fst r <= 100)%Q
  /\ (has_error (snd r) = true -> fst r == 0)%Q.
Proof.
  intros Hcal Hrun. change (returned result_ok (Return r) w').
  destruct Hrun as [(modality & file_bytes & filename & Hrun) | (text & Hrun)].
  - eapply wp_elim; [|exact Hrun].
    unfold analyze_content. apply wp_bind, wp_any. intros [u|e] w1; simpl; [|done].
    destruct (_ || _); [by apply image_score_ml_ok|].
    destruct (String.eqb _ _); [by apply process_audio_file_ok|].
    apply wp_ret, error_result_ok.
  - eapply wp_elim; [|exact Hrun].
    unfold analyze_text. apply wp_bind, wp_any. intros [u|e] w1; simpl; [|done].
    by apply text_score_ml_ok.
Qed.

Lemma demo_calibrated : calibrated demo.
Proof.
  repeat split; intros x out [= <-]; simpl; lra.
Qed.

Lemma returned_result_invariant_witness :
  calibrated demo
  /\ analyze_content demo "Image" clip_bytes None None empty_world
     = (Return demo_image_result, demo_image_world)
  /\ (has_error (snd demo_image_result) = false -> 0 <= fst demo_image_result <= 100)%Q
  /\ (has_error (snd demo_image_result) = true -> fst demo_image_result == 0)%Q.
Proof.
  assert (Hrun : analyze_content demo "Image" clip_bytes None None empty_world
                 = (Return demo_image_result, demo_image_world))
    by (vm_compute; reflexivity).
  split; [exact demo_calibrated|]. split; [exact Hrun|].
  apply (returned_result_invariant demo None empty_world demo_image_world
           demo_image_result demo_calibrated).
  left. exists "Image", clip_bytes, None. exact Hrun.
Defined.

(** ** Temporary files *)

Section KeepsFiles.

Context {A B : Type}.





End KeepsFiles.









(** C5 (the code at the failing input): on a full disk the call for
    "clip.wav" returns the error result and leaves the temporary file it
    created, which was not there before. *)
Theorem audio_write_failure_leaves_file :
  fst (analyze_content full_disk "Audio" clip_bytes None (Some "clip.wav") empty_world)
  = Return (audio_error disk_full_error)
  /\ files empty_world !! tmp_clip_path = None
  /\ files (snd (analyze_content full_disk "Audio" clip_bytes None (Some "clip.wav")
                   empty_world)) !! tmp_clip_path = Some [].
Proof. split; [|split]; vm_compute; reflexivity. Qed.

(** ** The text guard *)

Lemma text_score_ml_short E text w :
  len (strip text) < 50 ->
  text_score_ml E text w = (Return (text_too_short text), w).
Proof.
  intros H. unfold text_score_ml, try_except.
  by rewrite (proj2 (Z.ltb_lt _ _) H).
Qed.

(** Past the guard, the first thing [text_score_ml] does is obtain the text
    detector, and its result is not the too-short error. *)
Lemma text_score_ml_long E text w :
  50 <= len (strip text) ->
  exists r evs,
    fst (text_score_ml E text w) = Return r
    /\ r <> text_too_short text
    /\ trace (snd (text_score_ml E text w)) = (trace w ++ Obtain Text :: evs)%list.
Proof.
  intros H. unfold text_score_ml, try_except.
  rewrite (proj2 (Z.ltb_ge _ _) H).
  unfold get_text_detector, cache_resource, call, index0, bind, emit, lift; simpl.
  destruct (cache w !! Text) as [h|]; simpl.
  - destruct (text_detector E _) as [[|top rest]|e]; simpl;
      eexists _, _; (split; [reflexivity|]); (split; [discriminate|]);
      rewrite <- ?app_assoc; reflexivity.
  - destruct (pipeline E _ _ _) as [e|]; simpl;
      [|destruct (text_detector E _) as [[|top rest]|e]; simpl];
      eexists _, _; (split; [reflexivity|]); (split; [discriminate|]);
      rewrite <- ?app_assoc; reflexivity.
Qed.

(** C6: for every text whose stripped length is below 50, [analyze_text]
    returns score 0 with details
    [{"error": "Text is too short for accurate analysis", "text_length": len(text)}]
    and leaves the world as it is: the text detector is neither obtained nor
    invoked.  For a stripped length of 50 or more the guard does not fire:
    the detector is obtained and the result is not the too-short error. *)
Theorem short_text_guard (E : collaborators) (text : string) (w : world) :
  (len (strip text) < 50 ->
   analyze_text E text None w
   = ((Return (0%Q, DDict [("error", PStr "Text is too short for accurate analysis");
                           ("text_length", PInt (len text))])), w))
  /\ (50 <= len (strip text) ->
      exists r evs,
        fst (analyze_text E text None w) = Return r
        /\ r <> text_too_short text
        /\ trace (snd (analyze_text E text None w)) = (trace w ++ Obtain Text :: evs)%list).
Proof.
  rewrite analyze_text_no_bar. split.
  - apply text_score_ml_short.
  - apply text_score_ml_long.
Qed.

Lemma short_text_guard_witness :
  analyze_text demo "short" None empty_world
  = ((Return (0%Q, DDict [("error", PStr "Text is too short for accurate analysis");
                          ("text_length", PInt 5)])), empty_world)
  /\ exists r evs,
      fst (analyze_text demo sixty_chars None empty_world) = Return r
      /\ r <> text_too_short sixty_chars
      /\ trace (snd (analyze_text demo sixty_chars None empty_world))
         = (trace empty_world ++ Obtain Text :: evs)%list.
Proof.
  split.
  - apply (short_text_guard demo "short" empty_world). reflexivity.
  - apply (short_text_guard demo sixty_chars empty_world). discriminate.
Defined.



(** ** Dispatch by modality *)

(** C7 (as stated, refuted): a call of [analyze_content] with modality "Text"
    is not dispatched to a text analysis: it yields the "Unsupported
    modality" error and touches nothing. *)
Lemma text_modality_is_unsupported :
  analyze_content demo "Text" clip_bytes None None empty_world
  = (Return (0%Q, DDict [("error", PStr "Unsupported modality")]), empty_world).
Proof. vm_compute. reflexivity. Qed.

(** C7 (amended): [analyze_content] dispatches "Image" and "Video" to the
    image analysis and "Audio" to the audio analysis; the modality "Text"
    yields the "Unsupported modality" error with score 0 and leaves the world
    as it is.  Text is analysed by [analyze_text], which runs
    [text_score_ml]. *)
Theorem dispatch_by_modality (E : collaborators) (file_bytes : bytes)
    (filename : option string) (text : string) (w : world) :
  analyze_content E "Image" file_bytes None filename w = image_score_ml E file_bytes w
  /\ analyze_content E "Video" file_bytes None filename w = image_score_ml E file_bytes w
  /\ analyze_content E "Audio" file_bytes None filename w
     = process_audio_file E file_bytes filename w
  /\ analyze_content E "Text" file_bytes None filename w
     = (Return (0%Q, DDict [("error", PStr "Unsupported modality")]), w)
  /\ analyze_text E text None w = text_score_ml E text w.
Proof.
  rewrite !analyze_content_no_bar, analyze_text_no_bar. by repeat split.
Qed.

(** C8: for every modality other than "Image", "Video" and "Audio" and every
    byte input, [analyze_content] returns score 0 with details
    [{"error": "Unsupported modality"}] and leaves the world as it is: no
    handle is obtained, no model is loaded and no pipeline is invoked. *)
Theorem unsupported_modality_untouched (E : collaborators) (modality : string)
    (file_bytes : bytes) (filename : option string) (w : world) :
  modality <> "Image" -> modality <> "Video" -> modality <> "Audio" ->
  analyze_content E modality file_bytes None filename w
  = (Return (0%Q, DDict [("error", PStr "Unsupported modality")]), w).
Proof.
  intros Hi Hv Ha. rewrite analyze_content_no_bar.
  apply String.eqb_neq in Hi, Hv, Ha. by rewrite Hi, Hv, Ha.
Qed.

Lemma unsupported_modality_untouched_witness :
  analyze_content demo "Unsupported" clip_bytes None (Some "clip.wav") empty_world
  = (Return (0%Q, DDict [("error", PStr "Unsupported modality")]), empty_world).
Proof.
  apply (unsupported_modality_untouched demo "Unsupported" clip_bytes
           (Some "clip.wav") empty_world); discriminate.
Defined.

(** ** The cached handles, one caller at a time *)

(** Two calls of a cached getter in a row hand out the same handle, and the
    body of the getter runs once. *)
Lemma cache_resource_twice c w h w1 :
  cache_resource c None w = (Return h, w1) ->
  cache_resource c None w1 = (Return h, snd (emit (Obtain c) w1))
  /\ (cache w !! c = None ->
      trace (snd (cache_resource c None w1))
      = (trace w ++ [Obtain c; Initialize c; Obtain c])%list).
Proof.
  unfold cache_resource, bind, emit; simpl.
  destruct (cache w !! c) as [h0|] eqn:Hc; simpl.
  - intros [= <- <-]; simpl. rewrite Hc. by split.
  - intros [= <- <-]; simpl. rewrite lookup_insert_eq. split; [done|].
    intros _. by rewrite <- !app_assoc.
Qed.

(** ** Session state *)

Lemma set_default_lookup key v (state : gmap string session_value) k :
  set_default key v state !! k =
    match state !! k with
    | Some x => Some x
    | None => if decide (k = key) then Some v else None
    end.
Proof.
  unfold set_default. destruct (state !! key) eqn:Hkey.
  - destruct (state !! k) eqn:Hk; [done|].
    case_decide; [congruence | done].
  - rewrite lookup_insert. case_decide as Heq.
    + subst k. rewrite Hkey. by rewrite decide_True.
    + destruct (state !! k); [done|]. by rewrite decide_False by congruence.
Qed.

Lemma setup_session_state_lookup (state : gmap string session_value) k :
  setup_session_state state !! k =
    match state !! k with
    | Some x => Some x
    | None =>
        if decide (k = "analysis_done") then Some (SBool false)
        else if decide (k = "analysis_result" \/ k = "analysis_details") then Some SNone
             else None
    end.
Proof.
  unfold setup_session_state. rewrite !set_default_lookup.
  destruct (state !! k); [done|].
  destruct (decide (k = "analysis_done")) as [->|Hdone]; [done|].
  destruct (decide (k = "analysis_result")) as [->|Hresult].
  - by rewrite decide_True by (by left).
  - destruct (decide (k = "analysis_details")) as [->|Hdetails].
    + by rewrite decide_True by (by right).
    + by rewrite decide_False by (by intros [?|?]).
Qed.

(** X1: [setup_session_state] never overwrites: a key that is set keeps its
    value; the three keys it knows get their defaults ([False], [None],
    [None]) when they are missing; no other key appears. *)
Theorem setup_session_state_fills_gaps (state : gmap string session_value) :
  (forall k v, state !! k = Some v -> setup_session_state state !! k = Some v)
  /\ (state !! "analysis_done" = None ->
      setup_session_state state !! "analysis_done" = Some (SBool false))
  /\ (state !! "analysis_result" = None ->
      setup_session_state state !! "analysis_result" = Some SNone)
  /\ (state !! "analysis_details" = None ->
      setup_session_state state !! "analysis_details" = Some SNone)
  /\ (forall k, k <> "analysis_done" -> k <> "analysis_result" ->
                k <> "analysis_details" ->
                setup_session_state state !! k = state !! k).
Proof.
  split; [|split; [|split; [|split]]].
  - intros k v H. by rewrite setup_session_state_lookup, H.
  - intros H. by rewrite setup_session_state_lookup, H.
  - intros H. by rewrite setup_session_state_lookup, H.
  - intros H. by rewrite setup_session_state_lookup, H.
  - intros k H1 H2 H3. rewrite setup_session_state_lookup.
    destruct (state !! k); [done|].
    rewrite decide_False by done. by rewrite decide_False by (by intros [?|?]).
Qed.

Lemma setup_session_state_fills_gaps_witness :
  setup_session_state finished_session !! "analysis_done" = Some (SBool true)
  /\ setup_session_state finished_session !! "analysis_details" = Some SNone.
Proof.
  split.
  - apply (proj1 (setup_session_state_fills_gaps finished_session)).
    vm_compute. reflexivity.
  - apply (proj1 (proj2 (proj2 (proj2 (setup_session_state_fills_gaps finished_session))))).
    vm_compute. reflexivity.
Defined.

(** X2: Calling [setup_session_state] again changes nothing, and the keys after
    the call are those before it and the three it knows. *)
Theorem setup_session_state_idempotent (state : gmap string session_value) :
  setup_session_state (setup_session_state state) = setup_session_state state
  /\ dom (setup_session_state state)
     = dom state ∪ {[ "analysis_done"; "analysis_result"; "analysis_details" ]}.
Proof.
  split.
  - apply map_eq. intros k. rewrite setup_session_state_lookup.
    destruct (setup_session_state state !! k) eqn:Hk; [done|].
    rewrite setup_session_state_lookup in Hk.
    destruct (state !! k); [done|]. exact Hk.
  - apply set_eq. intros k. rewrite elem_of_union, !elem_of_dom.
    rewrite setup_session_state_lookup.
    rewrite !elem_of_union, !elem_of_singleton.
    destruct (state !! k) eqn:Hk; [by split; eauto|].
    destruct (decide (k = "analysis_done")) as [->|Hdone]; [by split; eauto|].
    destruct (decide (k = "analysis_result" \/ k = "analysis_details")) as [Hor|Hnor].
    + split; [intros _|by eauto]. right. destruct Hor; eauto.
    + split; [by intros [? ?]|]. intros [[? ?]|[[?|?]|?]]; [done|done|..];
        exfalso; apply Hnor; eauto.
Qed.

(** ** Facts about the string operations *)

Lemma append_cons (x : ascii) (a s : string) : String x a ++ s = String x (a ++ s).
Proof. reflexivity. Qed.

Lemma append_empty_l (s : string) : "" ++ s = s.
Proof. reflexivity. Qed.

Lemma prefix_spec (a s : string) :
  String.prefix a s = true <-> exists post, s = a ++ post.
Proof.
  revert s. induction a as [|x a IH]; intros s.
  - split; [intros _; by exists s|intros _; by destruct s].
  - destruct s as [|y s]; simpl.
    + split; [done|intros [post H]; discriminate].
    + destruct (ascii_dec x y) as [->|Hne].
      * rewrite IH. split; intros [post H]; exists post;
          rewrite append_cons in *; congruence.
      * split; [done|]. intros [post H]. rewrite append_cons in H. congruence.
Qed.

(** [needle in hay] is substring containment. *)
Lemma contains_spec (needle hay : string) :
  contains needle hay = true <-> exists pre post, hay = pre ++ needle ++ post.
Proof.
  induction hay as [|y hay IH].
  - cbn [contains]. rewrite orb_false_r, prefix_spec. split.
    + intros [post H]. by exists "", post.
    + intros (pre & post & H). destruct pre; [by exists post|discriminate].
  - cbn [contains]. rewrite orb_true_iff, prefix_spec, IH. split.
    + intros [[post H]|(pre & post & H)].
      * by exists "", post.
      * exists (String y pre), post. by rewrite append_cons, H.
    + intros (pre & post & H). destruct pre as [|x pre].
      * left. by exists post.
      * right. exists pre, post. rewrite append_cons in H. congruence.
Qed.

Lemma append_assoc (a b c : string) : (a ++ b) ++ c = a ++ (b ++ c).
Proof.
  induction a as [|x a IH]; [done|]. by rewrite !append_cons, IH.
Qed.

Lemma append_empty_r (s : string) : s ++ "" = s.
Proof. induction s as [|x s IH]; [done|]. by rewrite append_cons, IH. Qed.

(** A label that contains [b] contains every substring of [b]. *)
Lemma contains_trans (a b s : string) :
  contains a b = true -> contains b s = true -> contains a s = true.
Proof.
  rewrite !contains_spec. intros (p1 & q1 & ->) (p2 & q2 & ->).
  exists (p2 ++ p1), (q1 ++ q2). by rewrite !append_assoc.
Qed.

Lemma lstrip_length (s : string) :
  (String.length (lstrip s) <= String.length s)%nat.
Proof.
  induction s as [|a s IH]; simpl; [done|].
  destruct (is_space a); simpl; lia.
Qed.

Lemma rstrip_length (s : string) :
  (String.length (rstrip s) <= String.length s)%nat.
Proof.
  induction s as [|a s IH]; simpl; [done|].
  destruct (rstrip s); [destruct (is_space a)|]; simpl in *; lia.
Qed.

Lemma strip_len_le (s : string) : len (strip s) <= len s.
Proof.
  unfold len, strip. pose proof (rstrip_length (lstrip s)).
  pose proof (lstrip_length s). lia.
Qed.

Lemma lstrip_all_space (pad s : string) :
  all_space pad = true -> lstrip (pad ++ s) = lstrip s.
Proof.
  induction pad as [|a pad IH]; [done|]. rewrite append_cons. simpl.
  intros [Ha Hpad]%andb_true_iff. rewrite Ha. by apply IH.
Qed.

Lemma strip_all_space (pad s : string) :
  all_space pad = true -> strip (pad ++ s) = strip s.
Proof. intros H. unfold strip. by rewrite lstrip_all_space. Qed.

Lemma all_space_take n (s : string) :
  all_space s = true -> all_space (take n s) = true.
Proof.
  revert s. induction n as [|n IH]; intros [|a s]; simpl; try done.
  intros [Ha Hs]%andb_true_iff. rewrite Ha. by apply IH.
Qed.

Lemma strip_blank (s : string) : all_space s = true -> strip s = "".
Proof.
  intros H. rewrite <- (append_empty_r s). by rewrite strip_all_space.
Qed.

Lemma take_app_long n (pad s : string) :
  (n <= String.length pad)%nat -> take n (pad ++ s) = take n pad.
Proof.
  revert pad. induction n as [|n IH]; intros [|a pad]; simpl; try done; [lia|].
  intros H. rewrite IH; [done|lia].
Qed.

(** ** More on the polarity rules *)

(** X3: The image rule's test for "realism" never decides: the score is
    inverted exactly when the lower-cased label contains "real". *)
Theorem image_score_only_tests_real (top : classification) :
  image_score top =
    if contains "real" (lower (label top))
    then ((1 - score top) * 100)%Q
    else (score top * 100)%Q.
Proof.
  unfold image_score.
  destruct (contains "real" _) eqn:Hreal; [done|].
  destruct (contains "realism" _) eqn:Hism; [|done].
  assert (contains "real" "realism" = true) as Hsub by reflexivity.
  by rewrite (contains_trans _ _ _ Hsub Hism) in Hreal.
Qed.

(** ** More on the text analysis *)

Lemma text_score_ml_window E t1 t2 w :
  take 1000 t1 = take 1000 t2 ->
  50 <= len (strip t1) -> 50 <= len (strip t2) ->
  text_score_ml E t1 w = text_score_ml E t2 w.
Proof.
  intros Hsame H1 H2. unfold text_score_ml.
  rewrite (proj2 (Z.ltb_ge _ _) H1), (proj2 (Z.ltb_ge _ _) H2).
  by rewrite Hsame.
Qed.

Lemma analyze_text_congruence E t1 t2 bar w :
  (forall w1, text_score_ml E t1 w1 = text_score_ml E t2 w1) ->
  analyze_text E t1 bar w = analyze_text E t2 bar w.
Proof.
  intros H. unfold analyze_text, bind.
  destruct (progress_loop bar w) as [[u|e] w1]; [apply H | done].
Qed.

(** X5: Only the first 1000 characters of a text reach the detector: two texts
    that pass the length guard and agree on their first 1000 characters get
    the same result and leave the same world, with any progress bar. *)
Theorem text_analysis_reads_first_1000 (E : collaborators) (t1 t2 : string)
    (bar : option progress_bar) (w : world) :
  take 1000 t1 = take 1000 t2 ->
  50 <= len (strip t1) -> 50 <= len (strip t2) ->
  analyze_text E t1 bar w = analyze_text E t2 bar w.
Proof.
  intros Hsame H1 H2. apply analyze_text_congruence. intros w1.
  by apply text_score_ml_window.
Qed.

Lemma text_analysis_reads_first_1000_witness :
  analyze_text demo long_text_one None empty_world
  = analyze_text demo long_text_two None empty_world.
Proof.
  apply (text_analysis_reads_first_1000 demo long_text_one long_text_two None empty_world).
  - vm_compute. reflexivity.
  - vm_compute. discriminate.
  - vm_compute. discriminate.
Defined.

(** X6: The guard looks at the stripped text, the detector at the first 1000
    characters of the text as given: behind 1000 or more characters of
    leading white space a text passes the guard whenever its body does, the
    detector is handed white space only, and the body has no influence on the
    result. *)
Theorem leading_whitespace_fills_window (E : collaborators) (pad body body' : string)
    (bar : option progress_bar) (w : world) :
  all_space pad = true -> (1000 <= String.length pad)%nat ->
  50 <= len (strip body) -> 50 <= len (strip body') ->
  len (strip (pad ++ body)) = len (strip body)
  /\ strip (take 1000 (pad ++ body)) = ""
  /\ analyze_text E (pad ++ body) bar w = analyze_text E (pad ++ body') bar w.
Proof.
  intros Hpad Hlong Hbody Hbody'. split; [|split].
  - by rewrite strip_all_space.
  - rewrite take_app_long by done. by apply strip_blank, all_space_take.
  - apply analyze_text_congruence. intros w1. apply text_score_ml_window.
    + by rewrite !take_app_long.
    + by rewrite strip_all_space.
    + by rewrite strip_all_space.
Qed.

Lemma leading_whitespace_fills_window_witness :
  len (strip late_text) = len (strip sixty_chars)
  /\ strip (take 1000 late_text) = ""
  /\ analyze_text demo late_text None empty_world
     = analyze_text demo (replicate_char 1000 " " ++ replicate_char 60 "z") None empty_world.
Proof.
  apply (leading_whitespace_fills_window demo (replicate_char 1000 " ") sixty_chars
           (replicate_char 60 "z") None empty_world).
  - vm_compute. reflexivity.
  - apply Nat.leb_le. vm_compute. reflexivity.
  - vm_compute. discriminate.
  - vm_compute. discriminate.
Defined.

(** X7: A text of fewer than 50 characters is rejected whatever it contains:
    stripping never lengthens it. *)
Theorem text_below_50_rejected (E : collaborators) (text : string) (w : world) :
  len text < 50 ->
  analyze_text E text None w
  = (Return (0%Q, DDict [("error", PStr "Text is too short for accurate analysis");
                         ("text_length", PInt (len text))]), w).
Proof.
  intros H. rewrite analyze_text_no_bar. apply text_score_ml_short.
  pose proof (strip_len_le text). lia.
Qed.

Lemma text_below_50_rejected_witness :
  analyze_text demo "" None empty_world
  = (Return (0%Q, DDict [("error", PStr "Text is too short for accurate analysis");
                         ("text_length", PInt (len ""))]), empty_world).
Proof. apply (text_below_50_rejected demo "" empty_world). reflexivity. Defined.

(** X8: What [text_score_ml] returns past the guard.  When the detector is not
    cached and loading it raises [e], the error carries [e].  Otherwise the
    detector is called on the first 1000 characters: an exception [e] gives
    the error carrying [e], an empty output the error of [out[0]], and an
    output with top entry [top] the score of [top] with the lower-cased label
    and the confidence in percent, not inverted, as details. *)
Theorem text_outcomes (E : collaborators) (text : string) (w : world) :
  50 <= len (strip text) ->
  (cache w !! Text = None ->
   forall e, pipeline E "text-classification" "roberta-large-openai-detector" None = Some e ->
             fst (analyze_text E text None w) = Return (text_error e))
  /\ (cache w !! Text <> None
      \/ pipeline E "text-classification" "roberta-large-openai-detector" None = None ->
      fst (analyze_text E text None w) =
        match text_detector E (take 1000 text) with
        | Raise e => Return (text_error e)
        | Return [] => Return (text_error (Exception "list index out of range"))
        | Return (top :: _) =>
            Return (text_likelihood top,
                    DDict [("detector_label", PStr (lower (label top)));
                           ("detector_confidence", PFloat (score top * 100))])
        end).
Proof.
  intros Hlong. rewrite analyze_text_no_bar. unfold text_score_ml, try_except.
  rewrite (proj2 (Z.ltb_ge _ _) Hlong).
  unfold get_text_detector, cache_resource, call, index0, bind, emit, lift; simpl.
  split.
  - intros Hcold e Hload. by rewrite Hcold, Hload.
  - intros Hready. destruct (cache w !! Text) as [h|]; simpl.
    + by destruct (text_detector E _) as [[|top rest]|e].
    + destruct Hready as [?| ->]; [done|]. simpl.
      by destruct (text_detector E _) as [[|top rest]|e].
Qed.

Lemma text_outcomes_witness :
  fst (analyze_text silent sixty_chars None empty_world)
  = Return (0%Q, DDict [("error", PStr "Error processing text: list index out of range")]).
Proof.
  apply (proj2 (text_outcomes silent sixty_chars empty_world ltac:(discriminate))).
  right. reflexivity.
Defined.

(** ** More on the image analysis *)

(** X9: What the image analysis returns, for "Image" and "Video" alike.  When
    the model is not cached and loading it raises [e], the error carries [e],
    whatever the bytes are.  Otherwise the bytes are opened, converted to RGB
    and classified; the first step that raises [e] gives the error carrying
    [e], an empty output the error of [out[0]], and an output with top entry
    [top] the score of [top] with the whole output as details. *)
Theorem image_outcomes (E : collaborators) (modality : string) (image_bytes : bytes)
    (filename : option string) (w : world) :
  modality = "Image" \/ modality = "Video" ->
  (cache w !! Image = None ->
   forall e, pipeline E "image-classification" IMAGE_MODEL_ID (device E) = Some e ->
             fst (analyze_content E modality image_bytes None filename w)
             = Return (image_error e))
  /\ (cache w !! Image <> None
      \/ pipeline E "image-classification" IMAGE_MODEL_ID (device E) = None ->
      fst (analyze_content E modality image_bytes None filename w) =
        match image_open E image_bytes with
        | Raise e => Return (image_error e)
        | Return im =>
            match image_convert E im "RGB" with
            | Raise e => Return (image_error e)
            | Return pil =>
                match image_pipe E pil with
                | Raise e => Return (image_error e)
                | Return [] => Return (image_error (Exception "list index out of range"))
                | Return (top :: rest) => Return (image_score top, DList (top :: rest))
                end
            end
        end).
Proof.
  intros Hmod. rewrite analyze_content_no_bar.
  replace (String.eqb modality "Image" || String.eqb modality "Video") with true
    by (by destruct Hmod as [-> | ->]).
  unfold image_score_ml, try_except.
  unfold get_image_pipe, cache_resource, call, index0, bind, emit, lift; simpl.
  split.
  - intros Hcold e Hload. by rewrite Hcold, Hload.
  - intros Hready.
    destruct (cache w !! Image) as [h|]; simpl.
    + destruct (image_open E image_bytes) as [im|e]; [|done].
      destruct (image_convert E im "RGB") as [pil|e]; [|done].
      by destruct (image_pipe E pil) as [[|top rest]|e].
    + destruct Hready as [?| ->]; [done|]. simpl.
      destruct (image_open E image_bytes) as [im|e]; [|done].
      destruct (image_convert E im "RGB") as [pil|e]; [|done].
      by destruct (image_pipe E pil) as [[|top rest]|e].
Qed.

Lemma image_outcomes_witness :
  fst (analyze_content silent "Video" clip_bytes None None warm_world)
  = Return (0%Q, DDict [("error", PStr "Error processing image: list index out of range")]).
Proof.
  apply (proj2 (image_outcomes silent "Video" clip_bytes None warm_world
                  ltac:(right; reflexivity))).
  left. vm_compute. discriminate.
Defined.

(** X10: The image model is obtained before the bytes are opened: a picture that
    cannot be opened still loads the model when it is not cached, and the
    model stays cached after the error is returned. *)
Theorem image_model_loaded_before_decoding (E : collaborators) (image_bytes : bytes)
    (filename : option string) (w : world) (e : exn) :
  cache w !! Image = None ->
  pipeline E "image-classification" IMAGE_MODEL_ID (device E) = None ->
  image_open E image_bytes = Raise e ->
  analyze_content E "Image" image_bytes None filename w
  = (Return (0%Q, DDict [("error", PStr ("Error processing image: " ++ str e))]),
     {| files := files w;
        cache := <[Image := Handle Image (next_id w)]> (cache w);
        next_id := S (next_id w);
        trace := trace w ++ [Obtain Image; Initialize Image] |}).
Proof.
  intros Hcold Hload Hopen. rewrite analyze_content_no_bar. simpl.
  unfold image_score_ml, try_except.
  unfold get_image_pipe, cache_resource, call, index0, bind, emit, lift; simpl.
  rewrite Hcold, Hload; simpl. rewrite Hopen.
  by rewrite <- app_assoc.
Qed.

Lemma image_model_loaded_before_decoding_witness :
  analyze_content undecodable "Image" clip_bytes None None empty_world
  = (Return (0%Q, DDict [("error", PStr "Error processing image: cannot identify image file")]),
     {| files := ∅;
        cache := <[Image := Handle Image 0]> ∅;
        next_id := 1;
        trace := [Obtain Image; Initialize Image] |}).
Proof.
  apply (image_model_loaded_before_decoding undecodable clip_bytes None empty_world
           (Exception "cannot identify image file")); reflexivity.
Defined.

(** ** More on the audio analysis *)










(** X13: [analyze_content] passes [filename=None] unless the caller gives one:
    an audio analysis without a file name returns the error of
    [os.path.splitext(None)] and touches nothing, whatever the bytes are. *)
Theorem audio_without_filename (E : collaborators) (audio_bytes : bytes) (w : world) :
  analyze_content E "Audio" audio_bytes None None w
  = (Return (0%Q, DDict [("error", PStr ("Error processing audio: " ++
                                          "expected str, bytes or os.PathLike object, not NoneType"))]),
     w).
Proof. by rewrite analyze_content_no_bar. Qed.

(** ** What a call keeps of the world *)

Section Steps.

Variable R : world -> world -> Prop.
Hypothesis R_refl : forall w, R w w.
Hypothesis R_trans : forall w1 w2 w3, R w1 w2 -> R w2 w3 -> R w1 w3.

Lemma steps_ret {A} (a : A) : steps R (ret a).
Proof. intros w. apply R_refl. Qed.

Lemma steps_raise {A} e : steps R (@raise A e).
Proof. intros w. apply R_refl. Qed.

Lemma steps_lift {A} (o : outcome A) : steps R (lift o).
Proof. intros w. apply R_refl. Qed.

Lemma steps_index0 {A} (out : list A) : steps R (index0 out).
Proof. destruct out; [apply steps_raise | apply steps_ret]. Qed.

Lemma steps_bind {A B} (m : M A) (k : A -> M B) :
  steps R m -> (forall a, steps R (k a)) -> steps R (bind m k).
Proof.
  intros Hm Hk w. unfold bind. specialize (Hm w).
  destruct (m w) as [[a|e] w1]; simpl in *; [|done].
  eapply R_trans; [exact Hm | apply Hk].
Qed.

Lemma steps_try_except {A} (body : M A) (handler : exn -> M A) :
  steps R body -> (forall e, steps R (handler e)) -> steps R (try_except body handler).
Proof.
  intros Hb Hh w. unfold try_except. specialize (Hb w).
  destruct (body w) as [[a|e] w1]; simpl in *; [done|].
  eapply R_trans; [exact Hb | apply Hh].
Qed.

Lemma steps_try_finally {A} (body : M A) (final : M unit) :
  steps R body -> steps R final -> steps R (try_finally body final).
Proof.
  intros Hb Hf w. unfold try_finally. specialize (Hb w).
  destruct (body w) as [o w1]; simpl in *. specialize (Hf w1).
  destruct (final w1) as [[u|e] w2]; simpl in *; eapply R_trans; eauto.
Qed.

Lemma steps_for_range n start (body : Z -> M unit) :
  (forall i, steps R (body i)) -> steps R (for_range n start body).
Proof.
  intros Hbody. revert start. induction n as [|n IH]; intros start; simpl.
  - apply steps_ret.
  - apply steps_bind; [apply Hbody | intros _; apply IH].
Qed.

Lemma steps_if {A} (b : bool) (m1 m2 : M A) :
  steps R m1 -> steps R m2 -> steps R (if b then m1 else m2).
Proof. by destruct b. Qed.

(** The shape of the program: if the getters, the files, the progress bar
    and the calls keep [R], so do the public functions. *)
Hypothesis R_get_image_pipe : forall E, steps R (get_image_pipe E).
Hypothesis R_get_text_detector : forall E, steps R (get_text_detector E).
Hypothesis R_emit_invoke : forall c, steps R (emit (Invoke c)).
Hypothesis R_emit_progress : forall n, steps R (emit (Progress n)).

Lemma steps_call {A} h run (x : A) : steps R (call h run x).
Proof. apply steps_bind; [apply R_emit_invoke | intros _; apply steps_lift]. Qed.

Lemma steps_progress_loop bar : steps R (progress_loop bar).
Proof.
  apply steps_for_range. intros i.
  apply steps_bind; [apply steps_ret|]. intros _.
  destruct bar as [b|]; [|apply steps_ret].
  apply steps_bind; [apply R_emit_progress|]. intros _.
  destruct (bar_progress b _); [apply steps_raise | apply steps_ret].
Qed.

Lemma steps_image_score_ml E image_bytes : steps R (image_score_ml E image_bytes).
Proof.
  apply steps_try_except; [|intros e; apply steps_ret].
  apply steps_bind; [apply R_get_image_pipe|]; intros pipe.
  apply steps_bind; [apply steps_lift|]; intros im.
  apply steps_bind; [apply steps_lift|]; intros pil.
  apply steps_bind; [apply steps_call|]; intros out.
  apply steps_bind; [apply steps_index0|]; intros top. apply steps_ret.
Qed.

Lemma steps_text_score_ml E text : steps R (text_score_ml E text).
Proof.
  apply steps_try_except; [|intros e; apply steps_ret].
  apply steps_if; [apply steps_ret|].
  apply steps_bind; [apply R_get_text_detector|]; intros detector.
  apply steps_bind; [apply steps_call|]; intros out.
  apply steps_bind; [apply steps_index0|]; intros top. apply steps_ret.
Qed.

Lemma steps_analyze_text E text bar : steps R (analyze_text E text bar).
Proof.
  apply steps_bind; [apply steps_progress_loop|]. intros _. apply steps_text_score_ml.
Qed.

(** The audio analysis also works on files. *)
Hypothesis R_get_audio_pipe : forall E, steps R (get_audio_pipe E).
Hypothesis R_named_temporary_file :
  forall E suffix data, steps R (named_temporary_file E suffix data).
Hypothesis R_read_file : forall path, steps R (read_file path).
Hypothesis R_os_path_exists : forall path, steps R (os_path_exists path).
Hypothesis R_os_unlink : forall path, steps R (os_unlink path).

Lemma steps_process_audio_file E audio_bytes filename :
  steps R (process_audio_file E audio_bytes filename).
Proof.
  apply steps_try_except; [|intros e; apply steps_ret].
  apply steps_bind; [destruct filename; [apply steps_ret | apply steps_raise]|].
  intros suffix.
  apply steps_bind; [apply R_named_temporary_file|]; intros tmp_path.
  apply steps_try_finally.
  - apply steps_bind; [apply R_read_file|]; intros content.
    apply steps_bind; [apply steps_lift|]; intros y.
    apply steps_bind; [apply steps_lift|]; intros wav.
    apply steps_bind; [apply R_get_audio_pipe|]; intros pipe.
    apply steps_bind; [apply steps_call|]; intros out.
    apply steps_bind; [apply steps_index0|]; intros top. apply steps_ret.
  - apply steps_bind; [apply R_os_path_exists|]. intros present.
    apply steps_if; [apply R_os_unlink | apply steps_ret].
Qed.

Lemma steps_analyze_content E modality file_bytes bar filename :
  steps R (analyze_content E modality file_bytes bar filename).
Proof.
  apply steps_bind; [apply steps_progress_loop|]. intros _.
  apply steps_if; [apply steps_image_score_ml|].
  apply steps_if; [apply steps_process_audio_file | apply steps_ret].
Qed.

End Steps.

(** *** A cached handle stays *)

Lemma handle_kept_refl c h w : handle_kept c h w w.
Proof.
  intros Hc. split; [done|]. exists []. rewrite app_nil_r. split; [done|].
  apply not_elem_of_nil.
Qed.

Lemma handle_kept_trans c h w1 w2 w3 :
  handle_kept c h w1 w2 -> handle_kept c h w2 w3 -> handle_kept c h w1 w3.
Proof.
  intros H12 H23 Hc. destruct (H12 Hc) as (Hc2 & evs1 & Ht1 & Hn1).
  destruct (H23 Hc2) as (Hc3 & evs2 & Ht2 & Hn2). split; [done|].
  exists (evs1 ++ evs2)%list. rewrite Ht2, Ht1, app_assoc. split; [done|].
  rewrite elem_of_app. by intros [?|?].
Qed.

Lemma handle_kept_same c h w w' :
  cache w' = cache w -> trace w' = trace w -> handle_kept c h w w'.
Proof.
  intros Hc Ht. unfold handle_kept. rewrite Hc, Ht. apply handle_kept_refl.
Qed.

Lemma handle_kept_emit c h ev :
  ev <> Initialize c -> steps (handle_kept c h) (emit ev).
Proof.
  intros Hev w Hc. split; [done|]. exists [ev]. split; [done|].
  rewrite list_elem_of_singleton. congruence.
Qed.

Lemma handle_kept_cache_resource c h c' body :
  steps (handle_kept c h) (cache_resource c' body).
Proof.
  apply (steps_bind _ (handle_kept_trans c h)); [by apply handle_kept_emit|].
  intros _ w Hc. destruct (decide (c' = c)) as [->|Hne].
  - rewrite Hc. simpl. by apply handle_kept_refl.
  - destruct (cache w !! c') as [h'|]; simpl; [by apply handle_kept_refl|].
    destruct body as [e|]; simpl.
    + split; [done|]. exists [Initialize c']. split; [done|].
      rewrite list_elem_of_singleton. congruence.
    + rewrite lookup_insert_ne by done. split; [done|].
      exists [Initialize c']. split; [done|].
      rewrite list_elem_of_singleton. congruence.
Qed.

Lemma named_temporary_file_memo E suffix data w :
  cache (snd (named_temporary_file E suffix data w)) = cache w
  /\ trace (snd (named_temporary_file E suffix data w)) = trace w.
Proof.
  unfold named_temporary_file. destruct (files w !! _); [done|].
  destruct (tmp_create E suffix); [done|].
  by destruct (tmp_write E data) as [[e part]|].
Qed.

Lemma read_file_world path w : snd (read_file path w) = w.
Proof. unfold read_file. by destruct (files w !! path). Qed.

Lemma os_unlink_memo path w :
  cache (snd (os_unlink path w)) = cache w /\ trace (snd (os_unlink path w)) = trace w.
Proof. unfold os_unlink. by destruct (files w !! path). Qed.

Lemma handle_kept_analyze_content c h E modality file_bytes bar filename :
  steps (handle_kept c h) (analyze_content E modality file_bytes bar filename).
Proof.
  refine (steps_analyze_content (handle_kept c h) _ _ _ _ _ _ _ _ _ _
            E modality file_bytes bar filename).
  - apply handle_kept_refl.
  - apply handle_kept_trans.
  - intros. apply handle_kept_cache_resource.
  - intros. by apply handle_kept_emit.
  - intros. by apply handle_kept_emit.
  - intros. apply handle_kept_cache_resource.
  - intros E' suffix data w. apply handle_kept_same; apply named_temporary_file_memo.
  - intros path w. rewrite read_file_world. apply handle_kept_refl.
  - intros path w. apply handle_kept_refl.
  - intros path w. apply handle_kept_same; apply os_unlink_memo.
Qed.

Lemma handle_kept_analyze_text c h E text bar :
  steps (handle_kept c h) (analyze_text E text bar).
Proof.
  refine (steps_analyze_text (handle_kept c h) _ _ _ _ _ E text bar).
  - apply handle_kept_refl.
  - apply handle_kept_trans.
  - intros. apply handle_kept_cache_resource.
  - intros. by apply handle_kept_emit.
  - intros. by apply handle_kept_emit.
Qed.

(** X14: Once a model is cached, no analysis loads it again or replaces it: after
    any call of [analyze_content] or [analyze_text], with any input, any
    progress bar and any behaviour of the collaborators, the same handle is
    cached and the getter's body has not run for that capability. *)
Theorem cached_model_is_reused (E : collaborators) (c : capability) (h : handle)
    (w : world) :
  cache w !! c = Some h ->
  (forall modality file_bytes bar filename,
      cache (snd (analyze_content E modality file_bytes bar filename w)) !! c = Some h
      /\ exists evs,
          trace (snd (analyze_content E modality file_bytes bar filename w))
          = (trace w ++ evs)%list
          /\ Initialize c ∉ evs)
  /\ (forall text bar,
         cache (snd (analyze_text E text bar w)) !! c = Some h
         /\ exists evs,
             trace (snd (analyze_text E text bar w)) = (trace w ++ evs)%list
             /\ Initialize c ∉ evs).
Proof.
  intros Hc. split.
  - intros modality file_bytes bar filename.
    by apply (handle_kept_analyze_content c h E modality file_bytes bar filename w).
  - intros text bar. by apply (handle_kept_analyze_text c h E text bar w).
Qed.

Lemma cached_model_is_reused_witness :
  cache (snd (analyze_content demo "Image" clip_bytes None None warm_world)) !! Image
  = Some (Handle Image 0)
  /\ exists evs,
      trace (snd (analyze_content demo "Image" clip_bytes None None warm_world))
      = (trace warm_world ++ evs)%list
      /\ Initialize Image ∉ evs.
Proof.
  apply (proj1 (cached_model_is_reused demo Image (Handle Image 0) warm_world
                  ltac:(vm_compute; reflexivity))).
Defined.

(** *** Each analysis touches its own model only *)

Lemma only_touches_refl c0 w : only_touches c0 w w.
Proof. by intros c Hc. Qed.

Lemma only_touches_trans c0 w1 w2 w3 :
  only_touches c0 w1 w2 -> only_touches c0 w2 w3 -> only_touches c0 w1 w3.
Proof. intros H12 H23 c Hc. by rewrite H23, H12. Qed.

Lemma only_touches_emit c0 ev : steps (only_touches c0) (emit ev).
Proof. by intros w c Hc. Qed.

Lemma only_touches_cache_resource c0 body :
  steps (only_touches c0) (cache_resource c0 body).
Proof.
  apply (steps_bind _ (only_touches_trans c0)); [apply only_touches_emit|].
  intros _ w c Hc. destruct (cache w !! c0); [done|].
  destruct body; simpl; [done|]. by rewrite lookup_insert_ne.
Qed.

Lemma only_touches_progress_loop c0 bar : steps (only_touches c0) (progress_loop bar).
Proof.
  refine (steps_progress_loop (only_touches c0) _ _ _ bar).
  - apply only_touches_refl.
  - apply only_touches_trans.
  - intros. apply only_touches_emit.
Qed.

Lemma only_touches_same_cache c0 w w' : cache w' = cache w -> only_touches c0 w w'.
Proof. intros H c Hc. by rewrite H. Qed.

(** X15: An analysis of one modality never loads, replaces or drops the model of
    another: after an image or video analysis the cached audio and text
    models are as before, and likewise for audio and for text, with any
    input, any progress bar and any behaviour of the collaborators. *)
Theorem analysis_touches_own_model (E : collaborators) (w : world) (c : capability) :
  (c <> Image ->
   forall modality file_bytes bar filename,
     modality = "Image" \/ modality = "Video" ->
     cache (snd (analyze_content E modality file_bytes bar filename w)) !! c
     = cache w !! c)
  /\ (c <> Audio ->
      forall file_bytes bar filename,
        cache (snd (analyze_content E "Audio" file_bytes bar filename w)) !! c
        = cache w !! c)
  /\ (c <> Text ->
      forall text bar, cache (snd (analyze_text E text bar w)) !! c = cache w !! c).
Proof.
  split; [|split].
  - intros Hc modality file_bytes bar filename Hmod.
    assert (steps (only_touches Image)
              (analyze_content E modality file_bytes bar filename)) as Hsteps.
    { apply (steps_bind _ (only_touches_trans Image));
        [apply only_touches_progress_loop|]. intros _.
      replace (String.eqb modality "Image" || String.eqb modality "Video") with true
        by (by destruct Hmod as [-> | ->]).
      refine (steps_image_score_ml (only_touches Image) _ _ _ _ E file_bytes).
      - apply only_touches_refl.
      - apply only_touches_trans.
      - intros. apply only_touches_cache_resource.
      - intros. apply only_touches_emit. }
    by apply Hsteps.
  - intros Hc file_bytes bar filename.
    assert (steps (only_touches Audio)
              (analyze_content E "Audio" file_bytes bar filename)) as Hsteps.
    { apply (steps_bind _ (only_touches_trans Audio));
        [apply only_touches_progress_loop|]. intros _. simpl.
      refine (steps_process_audio_file (only_touches Audio) _ _ _ _ _ _ _ _
                E file_bytes filename).
      - apply only_touches_refl.
      - apply only_touches_trans.
      - intros. apply only_touches_emit.
      - intros. apply only_touches_cache_resource.
      - intros E' suffix data w'. apply only_touches_same_cache,
          named_temporary_file_memo.
      - intros path w'. rewrite read_file_world. apply only_touches_refl.
      - intros path w'. apply only_touches_refl.
      - intros path w'. apply only_touches_same_cache, os_unlink_memo. }
    by apply Hsteps.
  - intros Hc text bar.
    assert (steps (only_touches Text) (analyze_text E text bar)) as Hsteps.
    { refine (steps_analyze_text (only_touches Text) _ _ _ _ _ E text bar).
      - apply only_touches_refl.
      - apply only_touches_trans.
      - intros. apply only_touches_cache_resource.
      - intros. apply only_touches_emit.
      - intros. apply only_touches_emit. }
    by apply Hsteps.
Qed.

Lemma analysis_touches_own_model_witness :
  cache (snd (analyze_text demo sixty_chars None warm_world)) !! Image
  = cache warm_world !! Image.
Proof.
  apply (proj2 (proj2 (analysis_touches_own_model demo warm_world Image))).
  discriminate.
Defined.

(** ** The progress bar *)

Lemma progress_step b i w :
  (time_sleep (5 # 1000) ;;; progress b (i + 1))%py w =
    (match bar_progress b (i + 1) with
     | Some e => Raise e
     | None => Return tt
     end, add_events [Progress (i + 1)] w).
Proof.
  unfold bind, time_sleep, ret, progress, bind, emit; simpl.
  by destruct (bar_progress b (i + 1)).
Qed.

Lemma add_events_cons ev evs w :
  add_events evs (add_events [ev] w) = add_events (ev :: evs) w.
Proof. by rewrite add_events_app. Qed.

Lemma for_range_reports b n start w :
  (forall j, start < j <= start + Z.of_nat n -> bar_progress b j = None) ->
  for_range n start (fun i => time_sleep (5 # 1000) ;;; progress b (i + 1)) w
  = (Return tt, add_events (progress_events n (start + 1)) w).
Proof.
  revert start w. induction n as [|n IH]; intros start w Hquiet.
  - simpl. by rewrite add_events_nil.
  - cbn [for_range progress_events]. unfold bind at 1. rewrite progress_step.
    rewrite Hquiet by lia. rewrite IH by (intros j Hj; apply Hquiet; lia).
    by rewrite add_events_cons.
Qed.

Lemma for_range_breaks b n start k e w :
  start < k <= start + Z.of_nat n ->
  (forall j, start < j < k -> bar_progress b j = None) ->
  bar_progress b k = Some e ->
  for_range n start (fun i => time_sleep (5 # 1000) ;;; progress b (i + 1)) w
  = (Raise e, add_events (progress_events (Z.to_nat (k - start)) (start + 1)) w).
Proof.
  revert start w. induction n as [|n IH]; intros start w Hk Hquiet Hraise; [lia|].
  cbn [for_range]. unfold bind at 1. rewrite progress_step.
  destruct (decide (k = start + 1)) as [->|Hne].
  - rewrite Hraise. by replace (start + 1 - start) with 1 by lia.
  - rewrite Hquiet by lia.
    rewrite (IH (start + 1)) by (try done; try lia; intros j Hj; apply Hquiet; lia).
    rewrite add_events_cons.
    replace (Z.to_nat (k - start)) with (S (Z.to_nat (k - (start + 1)))) by lia.
    done.
Qed.

(** X17: With a progress bar whose first 100 calls return, [progress] is called
    with 1, 2, ..., 100, in this order, before anything else happens: the
    call behaves as the call without a bar does after these 100 reports. *)
Theorem progress_reported_before_analysis (E : collaborators) (b : progress_bar)
    (w : world) :
  (forall n, 1 <= n <= 100 -> bar_progress b n = None) ->
  (forall modality file_bytes filename,
      analyze_content E modality file_bytes (Some b) filename w
      = analyze_content E modality file_bytes None filename
          (add_events (progress_events 100 1) w))
  /\ (forall text,
         analyze_text E text (Some b) w
         = analyze_text E text None (add_events (progress_events 100 1) w)).
Proof.
  intros Hquiet.
  assert (Hloop : progress_loop (Some b) w
                  = (Return tt, add_events (progress_events 100 1) w)).
  { apply (for_range_reports b 100 0 w). intros j Hj. apply Hquiet. lia. }
  split.
  - intros modality file_bytes filename. rewrite analyze_content_no_bar.
    unfold analyze_content, bind. by rewrite Hloop.
  - intros text. rewrite analyze_text_no_bar.
    unfold analyze_text, bind. by rewrite Hloop.
Qed.

Lemma progress_reported_before_analysis_witness :
  analyze_text demo sixty_chars (Some quiet_bar) empty_world
  = analyze_text demo sixty_chars None (add_events (progress_events 100 1) empty_world).
Proof.
  apply (proj2 (progress_reported_before_analysis demo quiet_bar empty_world
                  ltac:(reflexivity))).
Defined.

(** X18: The progress loop is outside every [try]: when the [k]-th call of
    [progress] is the first to raise, [analyze_content] and [analyze_text]
    raise that exception after [k] reports, and no analysis is made: no
    model is obtained, loaded or invoked and no file is written. *)
Theorem progress_failure_propagates (E : collaborators) (b : progress_bar)
    (k : Z) (e : exn) (w : world) :
  1 <= k <= 100 ->
  (forall j, 1 <= j < k -> bar_progress b j = None) ->
  bar_progress b k = Some e ->
  (forall modality file_bytes filename,
      analyze_content E modality file_bytes (Some b) filename w
      = (Raise e, add_events (progress_events (Z.to_nat k) 1) w))
  /\ (forall text,
         analyze_text E text (Some b) w
         = (Raise e, add_events (progress_events (Z.to_nat k) 1) w)).
Proof.
  intros Hk Hquiet Hraise.
  assert (Hloop : progress_loop (Some b) w
                  = (Raise e, add_events (progress_events (Z.to_nat k) 1) w)).
  { replace (Z.to_nat k) with (Z.to_nat (k - 0)) by (f_equal; lia).
    apply (for_range_breaks b 100 0 k e w); [lia | intros j Hj; apply Hquiet; lia | done]. }
  split.
  - intros modality file_bytes filename. unfold analyze_content, bind. by rewrite Hloop.
  - intros text. unfold analyze_text, bind. by rewrite Hloop.
Qed.

Lemma progress_failure_propagates_witness :
  analyze_content demo "Image" clip_bytes (Some broken_bar) None empty_world
  = (Raise (Exception "widget is gone"),
     add_events [Progress 1; Progress 2; Progress 3] empty_world).
Proof.
  apply (proj1 (progress_failure_propagates demo broken_bar 3 (Exception "widget is gone")
                  empty_world ltac:(lia)
                  ltac:(intros j Hj; assert (j = 1 \/ j = 2) as [-> | ->] by lia; reflexivity)
                  ltac:(reflexivity))).
Defined.

(** ** A successful analysis leaves its model cached *)

Lemma wp_cache_resource c body w (post : outcome handle -> world -> Prop) :
  (forall h w1, cache w1 !! c = Some h -> post (Return h) w1) ->
  (forall e w1, post (Raise e) w1) ->
  wp (cache_resource c body) w post.
Proof.
  intros Hret Hraise. unfold wp, cache_resource, bind, emit; simpl.
  destruct (cache w !! c) as [h|] eqn:Hc; simpl; [by apply Hret|].
  destruct body as [e|]; simpl; [apply Hraise|].
  apply Hret. simpl. apply lookup_insert_eq.
Qed.

Lemma wp_call {A} h run (x : A) w (post : outcome (list classification) -> world -> Prop) :
  (forall o, post o (add_events [Invoke (h_cap h)] w)) ->
  wp (call h run x) w post.
Proof. intros H. unfold wp, call, bind, emit, lift; simpl. apply H. Qed.

Lemma error_caches_on_success c msg w :
  caches_on_success c (Return (0%Q, DDict [("error", PStr msg)])) w.
Proof. simpl. discriminate. Qed.

Lemma image_score_ml_caches E image_bytes w :
  wp (image_score_ml E image_bytes) w (caches_on_success Image).
Proof.
  apply wp_try_except, wp_bind, wp_cache_resource;
    [|intros e w1; apply wp_ret, error_caches_on_success].
  intros h w1 Hc; simpl.
  apply wp_bind, wp_lift. destruct (image_open E image_bytes) as [im|e]; simpl;
    [|apply wp_ret, error_caches_on_success].
  apply wp_bind, wp_lift. destruct (image_convert E im "RGB") as [pil|e]; simpl;
    [|apply wp_ret, error_caches_on_success].
  apply wp_bind, wp_call. intros [[|top rest]|e]; simpl.
  - apply wp_bind, wp_raise; simpl. apply wp_ret, error_caches_on_success.
  - apply wp_bind, wp_ret; simpl. apply wp_ret. intros _. simpl. eauto.
  - apply wp_ret, error_caches_on_success.
Qed.

Lemma text_score_ml_caches E text w :
  wp (text_score_ml E text) w (caches_on_success Text).
Proof.
  apply wp_try_except.
  destruct (len (strip text) <? 50); [apply wp_ret; simpl; discriminate|].
  apply wp_bind, wp_cache_resource;
    [|intros e w1; apply wp_ret, error_caches_on_success].
  intros h w1 Hc; simpl.
  apply wp_bind, wp_call. intros [[|top rest]|e]; simpl.
  - apply wp_bind, wp_raise; simpl. apply wp_ret, error_caches_on_success.
  - apply wp_bind, wp_ret; simpl. apply wp_ret. intros _. simpl. eauto.
  - apply wp_ret, error_caches_on_success.
Qed.

Lemma finally_memo path w :
  cache (snd ((present <- os_path_exists path ;;
               if present then os_unlink path else ret tt)%py w)) = cache w.
Proof.
  unfold bind, os_path_exists. destruct (bool_decide _); [|done].
  apply os_unlink_memo.
Qed.

Lemma process_audio_file_caches E audio_bytes filename w :
  wp (process_audio_file E audio_bytes filename) w (caches_on_success Audio).
Proof.
  apply wp_try_except.
  apply wp_bind, wp_any. intros [suffix|e] w1; simpl;
    [|apply wp_ret, error_caches_on_success].
  apply wp_bind, wp_any. intros [tmp_path|e] w2; simpl;
    [|apply wp_ret, error_caches_on_success].
  apply wp_try_finally.
  assert (Hfinal : forall (o : outcome result) w3,
             caches_on_success Audio o w3 ->
             wp (present <- os_path_exists tmp_path ;;
                 if present then os_unlink tmp_path else ret tt) w3
               (fun o2 w4 =>
                  match o2 with
                  | Return _ =>
                      match o with
                      | Return r => caches_on_success Audio (Return r) w4
                      | Raise e => wp (ret (audio_error e)) w4 (caches_on_success Audio)
                      end
                  | Raise e => wp (ret (audio_error e)) w4 (caches_on_success Audio)
                  end)).
  { intros o w3 Ho. unfold wp at 1. generalize (finally_memo tmp_path w3).
    destruct ((present <- os_path_exists tmp_path ;;
               if present then os_unlink tmp_path else ret tt)%py w3)
      as [[u|e] w4]; simpl; intros Hmemo.
    - destruct o as [r|e]; [|apply wp_ret, error_caches_on_success].
      simpl in *. by rewrite Hmemo.
    - apply wp_ret, error_caches_on_success. }
  apply wp_bind, wp_any. intros [content|e] w3; simpl;
    [|by apply (Hfinal (Raise e))].
  apply wp_bind, wp_lift. destruct (librosa_load _ _ _ _) as [y|e]; simpl;
    [|by apply (Hfinal (Raise e))].
  apply wp_bind, wp_lift. destruct (sf_write _ _ _ _) as [wav|e]; simpl;
    [|by apply (Hfinal (Raise e))].
  apply wp_bind, wp_cache_resource; [|intros e w4; by apply (Hfinal (Raise e))].
  intros h w4 Hc; simpl.
  apply wp_bind, wp_call. intros [[|top rest]|e]; simpl;
    [| |by apply (Hfinal (Raise e))].
  - apply wp_bind, wp_raise; simpl.
    by apply (Hfinal (Raise (Exception "list index out of range"))).
  - apply wp_bind, wp_ret; simpl.
    apply wp_ret, (Hfinal (Return (audio_score top, DList (top :: rest)))).
    intros _. simpl. eauto.
Qed.

(** X19: A result without an error entry means the model was there: after an
    analysis that returns such a result the model of its modality is cached,
    so that the next call finds it. *)
Theorem successful_analysis_caches_model (E : collaborators)
    (bar : option progress_bar) (w w' : world) (r : result) :
  has_error (snd r) = false ->
  (forall modality file_bytes filename,
      modality = "Image" \/ modality = "Video" ->
      analyze_content E modality file_bytes bar filename w = (Return r, w') ->
      is_Some (cache w' !! Image))
  /\ (forall file_bytes filename,
         analyze_content E "Audio" file_bytes bar filename w = (Return r, w') ->
         is_Some (cache w' !! Audio))
  /\ (forall text,
         analyze_text E text bar w = (Return r, w') ->
         is_Some (cache w' !! Text)).
Proof.
  intros Hsuccess. split; [|split].
  - intros modality file_bytes filename Hmod Hrun.
    cut (caches_on_success Image (Return r) w'); [by intros H; apply H|].
    eapply wp_elim; [|exact Hrun].
    unfold analyze_content. apply wp_bind, wp_any. intros [u|e] w1; simpl; [|done].
    replace (String.eqb modality "Image" || String.eqb modality "Video") with true
      by (by destruct Hmod as [-> | ->]).
    apply image_score_ml_caches.
  - intros file_bytes filename Hrun.
    cut (caches_on_success Audio (Return r) w'); [by intros H; apply H|].
    eapply wp_elim; [|exact Hrun].
    unfold analyze_content. apply wp_bind, wp_any. intros [u|e] w1; simpl; [|done].
    apply process_audio_file_caches.
  - intros text Hrun.
    cut (caches_on_success Text (Return r) w'); [by intros H; apply H|].
    eapply wp_elim; [|exact Hrun].
    unfold analyze_text. apply wp_bind, wp_any. intros [u|e] w1; simpl; [|done].
    apply text_score_ml_caches.
Qed.

Lemma successful_analysis_caches_model_witness :
  is_Some (cache demo_image_world !! Image).
Proof.
  apply (proj1 (successful_analysis_caches_model demo None empty_world demo_image_world
                  demo_image_result ltac:(reflexivity))
           "Image" clip_bytes None ltac:(left; reflexivity)).
  vm_compute. reflexivity.
Defined.

(** ** The error boundary *)









